(** * RFM feature construction: [scripts/build_rfm.py]

    A shallow embedding of [clean_transactions] and [build_rfm] and the
    properties of the cleaning-and-aggregation pipeline, followed by the
    script around them, [load_data] and [main], as the calls a run makes.

    Modelling conventions.
    - A pandas [DataFrame] is a list of column labels and a list of rows,
      one cell per label (row-major). The row index is not modelled. Labels
      are taken to be distinct once stripped and renamed; [df[name]] is the
      column at the first position that carries the label.
    - Column labels and text cells are [string]s, one [ascii] per code point
      (the loader decodes the file as ISO-8859-1).
    - A numeric cell carries its value: an integer cell is a [Z], a
      [float64] cell an extended rational (finite, [+inf], [-inf] or [NaN]).
      What the machine makes of a product, a sum or a cast (wrap-around of
      [int64], rounding, overflow and underflow of [float64]) is library
      code and a parameter of the model, see [Library]; comparisons with
      zero are exact.
    - A [Timestamp] is a [Z], the number of nanoseconds since the epoch.
      The theorems on [build_rfm] that depend on dates being representable
      say so ([in_range]).
    - [clean_transactions] assigns to its argument ([df.columns = ...]) and
      to frames it created itself; frames therefore live in a heap and the
      function is written in a state-and-exception monad over that heap.
    - [pd.to_datetime], Python's [str()] on non-text cells, the cast
      [astype(int)] of a cell that is not an integer, the product of two
      cells and the sum of a group are library code; they are parameters of
      the model. *)

From Stdlib Require Import QArith Qcanon.
From stdpp Require Import base numbers list strings gmap sorting pretty.

Local Open Scope Z_scope.

(** ** Cells *)

(** The value of a [float64] cell. [Inf true] is [-inf]. *)
Inductive number :=
  | Fin (q : Qc)
  | Inf (neg : bool)
  | NaN.

Inductive value :=
  | VNone                 (* Python [None] *)
  | VNaT                  (* pandas [NaT] *)
  | VInt (z : Z)          (* integer cell *)
  | VNum (x : number)     (* floating cell *)
  | VStr (s : string)     (* text cell *)
  | VTime (t : Z).        (* [Timestamp], nanoseconds since the epoch *)

Definition num_pos (x : number) : bool :=
  match x with
  | Fin q => bool_decide (0 < q)%Qc
  | Inf neg => negb neg
  | NaN => false
  end.

(** The exact product and sum of two numbers: what the machine computes
    where it neither rounds nor overflows. *)
Definition num_mul (x y : number) : number :=
  match x, y with
  | NaN, _ | _, NaN => NaN
  | Fin a, Fin b => Fin (a * b)%Qc
  | Fin a, Inf n | Inf n, Fin a =>
      if bool_decide (a = 0%Qc) then NaN
      else Inf (xorb n (bool_decide (a < 0)%Qc))
  | Inf n, Inf m => Inf (xorb n m)
  end.

Definition num_add (x y : number) : number :=
  match x, y with
  | NaN, _ | _, NaN => NaN
  | Fin a, Fin b => Fin (a + b)%Qc
  | Fin _, Inf n | Inf n, Fin _ => Inf n
  | Inf n, Inf m => if bool_decide (n = m) then Inf n else NaN
  end.

(** [pd.isna] on one cell. *)
Definition isna (v : value) : bool :=
  match v with
  | VNone | VNaT | VNum NaN => true
  | _ => false
  end.


Global Instance number_eq_dec : EqDecision number.
Proof. solve_decision. Defined.
Global Instance value_eq_dec : EqDecision value.
Proof. solve_decision. Defined.

Definition notna (v : value) : bool := negb (isna v).

(** ** Library functions the script calls

    [to_datetime col i] is the [i]-th entry of
    [pd.to_datetime(col, errors="coerce", dayfirst=True)], [None] for [NaT]
    (the parse of one entry may depend on the whole column);
    [py_str v] is [str(v)] for a cell that is not text;
    [int_cast v] is the entry [astype(int)] gives for a cell that is not an
    integer (a float, a text, ...), [None] when the cast raises;
    [int_times x y] is the entry of [Quantity * UnitPrice] for two integer
    cells (on [int64] columns it wraps around);
    [times x y] is that entry when one of the cells is a float (the product
    is rounded, and can overflow to an infinity or underflow to zero);
    [sum l] is the ["sum"] of the column [l] of one group (the order of
    summation and the rounding are pandas's).
    A theorem holds whatever these functions are. *)
Class Library := {
  to_datetime : list value → nat → option Z;
  py_str : value → string;
  int_cast : value → option Z;
  int_times : Z → Z → Z;
  times : number → number → number;
  sum : list number → number;
}.

(** ** Column labels *)

(** The characters Python's [str.strip()] removes, among the first 256 code
    points. *)
Definition is_space (c : Ascii.ascii) : bool :=
  let n := Ascii.N_of_ascii c in
  (((9 <=? n) && (n <=? 13)) || ((28 <=? n) && (n <=? 32))
   || (n =? 133) || (n =? 160))%N.

Fixpoint lstrip (s : string) : string :=
  match s with
  | String c s' => if is_space c then lstrip s' else s
  | EmptyString => EmptyString
  end.

Definition rstrip (s : string) : string := String.rev (lstrip (String.rev s)).

Definition strip (s : string) : string := rstrip (lstrip s).

Definition rename_map : gmap string string :=
  list_to_map
    [ ("Invoice", "InvoiceNo");
      ("InvoiceNo", "InvoiceNo");
      ("Customer ID", "CustomerID");
      ("CustomerID", "CustomerID");
      ("Price", "UnitPrice");
      ("UnitPrice", "UnitPrice");
      ("InvoiceDate", "InvoiceDate");
      ("Quantity", "Quantity") ].

(** [{c: rename_map[c] for c in df.columns if c in rename_map}] *)
Definition rename_mapper (cols : list string) : gmap string string :=
  list_to_map (omap (λ c, (λ c', (c, c')) <$> rename_map !! c) cols).

(** The labels of [df.rename(columns=mapper)]. *)
Definition rename_labels (mapper : gmap string string) (cols : list string)
  : list string :=
  (λ c, default c (mapper !! c)) <$> cols.

Definition required_cols : gset string :=
  {[ "InvoiceNo"; "InvoiceDate"; "CustomerID"; "Quantity"; "UnitPrice" ]}.

(** ** Frames *)

Record frame := Frame { columns : list string; rows : list (list value) }.

Global Instance frame_eq_dec : EqDecision frame.
Proof. solve_decision. Defined.

(** Position of the column called [name]. *)
Fixpoint index_of (name : string) (cols : list string) : option nat :=
  match cols with
  | [] => None
  | c :: cols' =>
      if decide (c = name) then Some O else S <$> index_of name cols'
  end.

Definition cell (i : nat) (r : list value) : value := default VNone (r !! i).

(** The cell of row [r] under the label [name]: the one at the first
    position that carries the label. With the label carried twice
    [df[name]] is not a column in pandas; the theorems on how the call ends
    assume the labels distinct. *)
Definition field (cols : list string) (name : string) (r : list value) : value :=
  match index_of name cols with
  | Some i => cell i r
  | None => VNone
  end.

(** Row [r] with [v] under the label [name]: overwritten, or appended when
    the label is new. *)
Definition set_field (cols : list string) (name : string) (v : value)
    (r : list value) : list value :=
  match index_of name cols with
  | Some i => <[i:=v]> r
  | None => r ++ [v]
  end.

Definition add_label (name : string) (cols : list string) : list string :=
  match index_of name cols with
  | Some _ => cols
  | None => cols ++ [name]
  end.

(** [df[name]]: the column as a list of cells, [None] for [KeyError]. *)
Definition column (name : string) (df : frame) : option (list value) :=
  _ ← index_of name (columns df);
  Some (field (columns df) name <$> rows df).

(** [df[name] = col] *)
Definition assign (name : string) (col : list value) (df : frame) : frame :=
  Frame (add_label name (columns df))
        (zip_with (set_field (columns df) name) col (rows df)).

(** Boolean indexing: the entries at which [mask] is true. *)
Fixpoint pick {A} (mask : list bool) (l : list A) : list A :=
  match mask, l with
  | b :: mask', x :: l' => if b then x :: pick mask' l' else pick mask' l'
  | _, _ => []
  end.

(** [df[mask]] *)
Definition select (mask : list bool) (df : frame) : frame :=
  Frame (columns df) (pick mask (rows df)).

(** ** Column operations *)

(** [pd.to_datetime(col, errors="coerce", dayfirst=True)] *)
Definition date_cell (o : option Z) : value :=
  match o with
  | Some t => VTime t
  | None => VNaT
  end.

Definition to_datetime_col `{Library} (col : list value) : list value :=
  imap (λ i _, date_cell (to_datetime col i)) col.

(** [col.astype(str)], one cell. What becomes of a missing cell depends on
    the pandas version (the text of [str()], or the cell left missing); the
    invariant of the cleaned records is stated for frames without missing
    invoice identifiers. *)
Definition astype_str `{Library} (v : value) : value :=
  match v with
  | VStr s => VStr s
  | _ => VStr (py_str v)
  end.

(** [col.str.startswith(p)], one cell; [None] where the negated mask cannot
    be built because the cell is not text. *)
Definition str_startswith (p : string) (v : value) : option bool :=
  match v with
  | VStr s => Some (String.prefix p s)
  | _ => None
  end.

(** [col > 0], one cell; [None] where the comparison raises [TypeError].
    Missing cells compare false. pandas compares cell by cell a column that
    holds a number; the theorems on the [TypeError] assume that of the
    two columns compared, see [plain]. *)
Definition gt_zero (v : value) : option bool :=
  match v with
  | VInt z => Some (bool_decide (0 < z))
  | VNum x => Some (num_pos x)
  | VNone | VNaT => Some false
  | VStr _ | VTime _ => None
  end.

(** Truncation toward zero, as in the cast of a float to an integer. *)
Definition Qc_trunc (q : Qc) : Z := Z.quot (Qnum q) (Z.pos (Qden q)).

(** [col.astype(int)], one cell; [None] where the cast raises. *)
Definition astype_int `{Library} (v : value) : option Z :=
  match v with
  | VInt z => Some z
  | _ => int_cast v
  end.

Definition to_number (v : value) : option number :=
  match v with
  | VInt z => Some (Fin (Qc_of_Z z))
  | VNum x => Some x
  | _ => None
  end.

(** [a * b] on two cells; [None] where the product is not numeric. *)
Definition mul_value `{Library} (a b : value) : option value :=
  match a, b with
  | VInt x, VInt y => Some (VInt (int_times x y))
  | _, _ => x ← to_number a; y ← to_number b; Some (VNum (times x y))
  end.

(** ** The heap of frames and the monad of the script *)

(** [SchemaError missing found] is the [ValueError] of line 44, whose message
    prints [missing] and [found]; [CastError] is whatever [astype(int)]
    raises (in Python a [ValueError] or [TypeError] with another message). *)
Inductive exn :=
  | SchemaError (missing : gset string) (found : list string)
  | KeyError (name : string)
  | TypeError
  | CastError.

Inductive result (A : Type) :=
  | Ok (a : A)
  | Raise (e : exn).
Arguments Ok {A} a.
Arguments Raise {A} e.

Definition loc := nat.
Definition heap := list frame.

Definition M (A : Type) : Type := heap → heap * result A.

Definition ret {A} (a : A) : M A := λ h, (h, Ok a).

Definition bind {A B} (m : M A) (f : A → M B) : M B :=
  λ h, match m h with
       | (h', Ok a) => f a h'
       | (h', Raise e) => (h', Raise e)
       end.

Definition raise {A} (e : exn) : M A := λ h, (h, Raise e).

Global Instance M_ret : MRet M := @ret.
Global Instance M_bind : MBind M := λ A B f m, bind m f.

Definition try {A} (e : exn) (o : option A) : M A :=
  match o with
  | Some a => ret a
  | None => raise e
  end.

Definition empty_frame : frame := Frame [] [].

Definition load (l : loc) : M frame := λ h, (h, Ok (default empty_frame (h !! l))).
Definition store (l : loc) (f : frame) : M unit := λ h, (<[l:=f]> h, Ok tt).
Definition alloc (f : frame) : M loc := λ h, (h ++ [f], Ok (length h)).

(** [df.columns] *)
Definition get_columns (df : loc) : M (list string) :=
  f ← load df; ret (columns f).

(** [df.columns = cols], in place *)
Definition set_columns (df : loc) (cols : list string) : M unit :=
  f ← load df; store df (Frame cols (rows f)).

(** [df.rename(columns=mapper)], a new frame *)
Definition rename (df : loc) (mapper : gmap string string) : M loc :=
  f ← load df; alloc (Frame (rename_labels mapper (columns f)) (rows f)).

(** [df[name]] *)
Definition getitem (df : loc) (name : string) : M (list value) :=
  f ← load df; try (KeyError name) (column name f).

(** [df[name] = col], in place *)
Definition setitem (df : loc) (name : string) (col : list value) : M unit :=
  f ← load df; store df (assign name col f).

(** [df[mask]], a new frame *)
Definition getitem_mask (df : loc) (mask : list bool) : M loc :=
  f ← load df; alloc (select mask f).

(** [df.dropna(subset=[name])], a new frame *)
Definition dropna (df : loc) (name : string) : M loc :=
  col ← getitem df name;
  getitem_mask df (notna <$> col).

(** [df.copy()] *)
Definition copy (df : loc) : M loc :=
  f ← load df; alloc f.

(** ** [clean_transactions] *)

Definition clean_transactions `{Library} (df : loc) : M loc :=
  cols ← get_columns df;
  set_columns df (strip <$> cols);;
  cols ← get_columns df;
  df ← rename df (rename_mapper cols);
  cols ← get_columns df;
  let missing := required_cols ∖ list_to_set cols in
  if decide (missing ≠ ∅) then raise (SchemaError missing cols) else
  df ← dropna df "CustomerID";
  df ← copy df;
  col ← getitem df "InvoiceDate";
  setitem df "InvoiceDate" (to_datetime_col col);;
  df ← dropna df "InvoiceDate";
  df ← copy df;
  col ← getitem df "InvoiceNo";
  setitem df "InvoiceNo" (astype_str <$> col);;
  col ← getitem df "InvoiceNo";
  cancelled ← try TypeError (mapM (str_startswith "C") col);
  df ← getitem_mask df (negb <$> cancelled);
  df ← copy df;
  qty ← getitem df "Quantity";
  qty_pos ← try TypeError (mapM gt_zero qty);
  price ← getitem df "UnitPrice";
  price_pos ← try TypeError (mapM gt_zero price);
  df ← getitem_mask df (zip_with andb qty_pos price_pos);
  df ← copy df;
  col ← getitem df "CustomerID";
  ids ← try CastError (mapM astype_int col);
  setitem df "CustomerID" (VInt <$> ids);;
  qty ← getitem df "Quantity";
  price ← getitem df "UnitPrice";
  total ← try TypeError (mapM (λ qp, mul_value qp.1 qp.2) (zip qty price));
  setitem df "TotalPrice" total;;
  ret df.

(** Calling [clean_transactions] on a frame nobody else refers to: the
    heap holds just the argument, at location 0. *)
Definition run_clean `{Library} (df : frame) : heap * result loc :=
  clean_transactions O [df].

(** What the call returns: the cleaned frame, or the exception. *)
Definition clean `{Library} (df : frame) : result frame :=
  match run_clean df with
  | (h, Ok l) => Ok (default empty_frame (h !! l))
  | (_, Raise e) => Raise e
  end.

(** The caller's frame after the call. *)
Definition input_after `{Library} (df : frame) : frame :=
  default empty_frame ((run_clean df).1 !! O).

(** The exact sum of a column, missing values skipped. *)
Definition exact_sum (l : list number) : number :=
  foldl num_add (Fin 0%Qc) (filter (λ x, x ≠ NaN) l).

(** A reference instance of the library functions, for the examples: a
    [Timestamp] converts to itself, anything else to [NaT]; [str()] of a
    non-text cell is left as ["?"]; a finite float casts to its integer
    part and the cast of anything else raises; products and sums are exact,
    which is what the machine computes where it neither rounds nor
    overflows, as on the totals the examples state. *)
Definition timestamps_only : Library :=
  {| to_datetime col i :=
       match col !! i with Some (VTime t) => Some t | _ => None end;
     py_str _ := "?";
     int_cast v :=
       match v with VNum (Fin q) => Some (Qc_trunc q) | _ => None end;
     int_times := Z.mul;
     times := num_mul;
     sum := exact_sum |}.

(** [int64] arithmetic: the representative of [z] in the 64-bit range. *)
Definition wrap64 (z : Z) : Z := (z + 2 ^ 63) `mod` 2 ^ 64 - 2 ^ 63.

(** The reference instance with the product of [int64] columns as numpy
    computes it. *)
Definition int64_products : Library :=
  {| to_datetime := @to_datetime timestamps_only;
     py_str := @py_str timestamps_only;
     int_cast := @int_cast timestamps_only;
     int_times x y := wrap64 (x * y);
     times := @times timestamps_only;
     sum := @sum timestamps_only |}.

Definition day : Z := 86400000000000.

(** ** The value [clean_transactions] computes, with the heap erased

    The same statements over frames as values; [clean_heap_free] below
    shows that this is what the call returns. *)

Global Instance result_ret : MRet result := @Ok.
Global Instance result_bind : MBind result := λ A B f r,
  match r with
  | Ok a => f a
  | Raise e => Raise e
  end.

Definition need {A} (e : exn) (o : option A) : result A :=
  match o with
  | Some a => Ok a
  | None => Raise e
  end.

(** Labels after stripping and renaming (lines 24 to 39). *)
Definition canonical (cols : list string) : list string :=
  rename_labels (rename_mapper (strip <$> cols)) (strip <$> cols).

Definition clean_value `{Library} (df : frame) : result frame :=
  let cols := canonical (columns df) in
  let missing := required_cols ∖ list_to_set cols in
  if decide (missing ≠ ∅) then Raise (SchemaError missing cols) else
  let f := Frame cols (rows df) in
  col ← need (KeyError "CustomerID") (column "CustomerID" f);
  let f := select (notna <$> col) f in
  col ← need (KeyError "InvoiceDate") (column "InvoiceDate" f);
  let f := assign "InvoiceDate" (to_datetime_col col) f in
  col ← need (KeyError "InvoiceDate") (column "InvoiceDate" f);
  let f := select (notna <$> col) f in
  col ← need (KeyError "InvoiceNo") (column "InvoiceNo" f);
  let f := assign "InvoiceNo" (astype_str <$> col) f in
  col ← need (KeyError "InvoiceNo") (column "InvoiceNo" f);
  cancelled ← need TypeError (mapM (str_startswith "C") col);
  let f := select (negb <$> cancelled) f in
  qty ← need (KeyError "Quantity") (column "Quantity" f);
  qty_pos ← need TypeError (mapM gt_zero qty);
  price ← need (KeyError "UnitPrice") (column "UnitPrice" f);
  price_pos ← need TypeError (mapM gt_zero price);
  let f := select (zip_with andb qty_pos price_pos) f in
  col ← need (KeyError "CustomerID") (column "CustomerID" f);
  ids ← need CastError (mapM astype_int col);
  let f := assign "CustomerID" (VInt <$> ids) f in
  qty ← need (KeyError "Quantity") (column "Quantity" f);
  price ← need (KeyError "UnitPrice") (column "UnitPrice" f);
  total ← need TypeError (mapM (λ qp, mul_value qp.1 qp.2) (zip qty price));
  Ok (assign "TotalPrice" total f).

(** ** The rows [clean_transactions] keeps, stage by stage

    Each statement of lines 47 to 64 read as a function on the list of rows,
    for a frame whose labels are [cols]; [clean_value_rows] below shows that
    their composition is the row list of the returned frame. *)

Definition starts_with_C (v : value) : bool :=
  default false (str_startswith "C" v).

Definition positive (v : value) : bool := default false (gt_zero v).

Section Stages.
Context `{Library} (cols : list string).

Definition keep_customers (rws : list (list value)) : list (list value) :=
  filter (λ r, notna (field cols "CustomerID" r) = true) rws.

Definition parse_dates (rws : list (list value)) : list (list value) :=
  imap (λ i r, set_field cols "InvoiceDate"
                 (date_cell (to_datetime (field cols "InvoiceDate" <$> rws) i)) r)
       rws.

Definition keep_dated (rws : list (list value)) : list (list value) :=
  filter (λ r, notna (field cols "InvoiceDate" r) = true) rws.

Definition text_invoices (rws : list (list value)) : list (list value) :=
  (λ r, set_field cols "InvoiceNo" (astype_str (field cols "InvoiceNo" r)) r)
    <$> rws.

Definition keep_sales (rws : list (list value)) : list (list value) :=
  filter (λ r, negb (starts_with_C (field cols "InvoiceNo" r)) = true) rws.

Definition keep_positive (rws : list (list value)) : list (list value) :=
  filter (λ r, positive (field cols "Quantity" r)
               && positive (field cols "UnitPrice" r) = true) rws.

Definition int_customers (rws : list (list value)) : list (list value) :=
  (λ r, set_field cols "CustomerID"
          (VInt (default 0 (astype_int (field cols "CustomerID" r)))) r)
    <$> rws.

Definition add_totals (rws : list (list value)) : list (list value) :=
  (λ r, set_field cols "TotalPrice"
          (default VNone (mul_value (field cols "Quantity" r)
                                    (field cols "UnitPrice" r))) r)
    <$> rws.

(** The rows on which the integer cast of line 61 runs. *)
Definition sales_rows (rws : list (list value)) : list (list value) :=
  keep_positive (keep_sales (text_invoices (keep_dated (parse_dates
    (keep_customers rws))))).

Definition clean_rows (rws : list (list value)) : list (list value) :=
  add_totals (int_customers (sales_rows rws)).
End Stages.

(** Every row has one cell per label. *)
Definition wf_frame (df : frame) : Prop :=
  Forall (λ r, length r = length (columns df)) (rows df).

(** ** The cleaned table as typed records

    [build_rfm] is applied to what [clean_transactions] returns: a frame
    whose [InvoiceNo] column is text, whose [InvoiceDate] column holds
    timestamps, whose [CustomerID] column holds integers and whose
    [Quantity], [UnitPrice] and [TotalPrice] columns are numeric.
    [transactions] reads such a frame as a list of records. *)

Record txn := Txn {
  InvoiceNo : string;
  InvoiceDate : Z;
  CustomerID : Z;
  Quantity : number;
  UnitPrice : number;
  TotalPrice : number;
}.

Definition read_txn (cols : list string) (r : list value) : option txn :=
  match field cols "InvoiceNo" r, field cols "InvoiceDate" r,
        field cols "CustomerID" r with
  | VStr s, VTime t, VInt z =>
      q ← to_number (field cols "Quantity" r);
      p ← to_number (field cols "UnitPrice" r);
      tot ← to_number (field cols "TotalPrice" r);
      Some (Txn s t z q p tot)
  | _, _, _ => None
  end.

Definition transactions (df : frame) : option (list txn) :=
  mapM (read_txn (columns df)) (rows df).

(** ** [build_rfm] *)

Record rfm := Rfm {
  Customer : Z;
  Recency : option Z;    (* [None] is the missing marker *)
  Frequency : nat;
  Monetary : number;
}.

(** [col.max()] of a timestamp column; [None] ([NaT]) when it is empty. *)
Definition max_time (l : list Z) : option Z :=
  foldr (λ t acc, Some (from_option (Z.max t) t acc)) None l.

(** [df["InvoiceDate"].max() + pd.Timedelta(days=1)], for a latest date one
    day below the greatest [Timestamp] at least, see [in_range]. *)
Definition snapshot_date (df : list txn) : option Z :=
  (λ m, m + day) <$> max_time (InvoiceDate <$> df).

(** [Timedelta.days]: whole days, rounded toward minus infinity. *)
Definition days (d : Z) : Z := d `div` day.

(** [lambda x: (snapshot_date - x.max()).days] *)
Definition recency (snapshot : option Z) (x : list Z) : option Z :=
  s ← snapshot; m ← max_time x; Some (days (s - m)).

(** ["nunique"] *)
Definition nunique (l : list string) : nat := length (remove_dups l).

(** [df.groupby("CustomerID")]: the keys in increasing order, each with its
    rows in their original order. *)
Definition groupby (df : list txn) : list (Z * list txn) :=
  (λ k, (k, filter (λ t, CustomerID t = k) df))
    <$> merge_sort Z.le (remove_dups (CustomerID <$> df)).

(** [.agg(Recency=..., Frequency=..., Monetary=...).reset_index()] *)
Definition agg `{Library} (snapshot : option Z) (groups : list (Z * list txn))
  : list rfm :=
  (λ g, {| Customer := g.1;
           Recency := recency snapshot (InvoiceDate <$> g.2);
           Frequency := nunique (InvoiceNo <$> g.2);
           Monetary := sum (TotalPrice <$> g.2) |}) <$> groups.

(** [rfm.replace([np.inf, -np.inf], np.nan)] *)
Definition replace_inf (r : rfm) : rfm :=
  {| Customer := Customer r;
     Recency := Recency r;
     Frequency := Frequency r;
     Monetary := match Monetary r with Inf _ => NaN | x => x end |}.

(** [rfm.dropna()] *)
Definition rfm_notna (r : rfm) : bool :=
  bool_decide (Recency r ≠ None) && bool_decide (Monetary r ≠ NaN).

(** [(rfm["Frequency"] > 0) & (rfm["Monetary"] > 0) & (rfm["Recency"] >= 0)] *)
Definition sane (r : rfm) : bool :=
  bool_decide (0 < Frequency r)%nat && num_pos (Monetary r)
  && from_option (λ d, bool_decide (0 ≤ d)) false (Recency r).

(** The table the call [build_rfm(df)] returns, when it returns one; when
    it does not is [build_rfm_error] below. *)
Definition build_rfm `{Library} (df : list txn) : list rfm :=
  let snapshot_date := snapshot_date df in
  let rfm := agg snapshot_date (groupby df) in
  let rfm := filter (λ r, rfm_notna r = true) (replace_inf <$> rfm) in
  filter (λ r, sane r = true) rfm.

(** *** Representable dates

    A [Timestamp] is a 64-bit count of nanoseconds and so is a [Timedelta];
    line 71 raises when the day after the latest date is not a [Timestamp]
    and line 76 when a difference to the snapshot is not a [Timedelta]. *)
Definition timestamp_max : Z := 2 ^ 63 - 1.
Definition timestamp_min : Z := - (2 ^ 63 - 1).

(** The dates of the table are timestamps, the day after each of them is
    one (so the snapshot is), and the time from the latest date of each
    customer to the day after any date (so to the snapshot) is a
    [Timedelta]. *)
Definition in_range (df : list txn) : Prop :=
  Forall (λ t, timestamp_min ≤ InvoiceDate t ∧
               InvoiceDate t + day ≤ timestamp_max) df ∧
  Forall (λ g, Forall (λ gm, Forall (λ t, InvoiceDate t + day - gm ≤ timestamp_max) df)
                      (option_list (max_time (InvoiceDate <$> g.2))))
         (groupby df).

(** How the call [build_rfm(df)] ends when it returns no table: on a table
    with no rows the Recency column is left a column of timestamps and the
    comparison [>= 0] of line 87 raises [TypeError]; on dates out of range
    lines 71 or 76 raise. Otherwise the call returns [build_rfm df]. *)
Inductive rfm_error :=
  | NoRows
  | OutOfBounds.

Definition build_rfm_error (df : list txn) : option rfm_error :=
  if decide (df = []) then Some NoRows
  else if decide (in_range df) then None
  else Some OutOfBounds.

(** The outcome of a run agrees with a heap-free value: the caller's frame
    is [f0] and the run returns [r], as the frame at the returned location. *)
Definition agrees (x : heap * result loc) (f0 : frame) (r : result frame) : Prop :=
  x.1 !! O = Some f0 ∧
  match x.2, r with
  | Ok l, Ok f => x.1 !! l = Some f
  | Raise e, Raise e' => e = e'
  | _, _ => False
  end.

(** The row [r] once its date is the timestamp [t] and its invoice is text. *)
Definition sale_row `{Library} (cols : list string) (t : Z) (r : list value)
  : list value :=
  set_field cols "InvoiceNo" (astype_str (field cols "InvoiceNo" r))
    (set_field cols "InvoiceDate" (VTime t) r).

(** The row [r] as [clean_transactions] returns it. *)
Definition cleaned_row `{Library} (cols : list string) (t : Z) (r : list value)
  : list value :=
  set_field cols "TotalPrice"
    (default VNone (mul_value (field cols "Quantity" r) (field cols "UnitPrice" r)))
    (set_field cols "CustomerID"
       (VInt (default 0 (astype_int (field cols "CustomerID" r))))
       (sale_row cols t r)).

(** Row [r], at position [i] among the rows that have a customer, passes
    the filters of lines 50 to 58, with [t] as its parsed date. *)
Definition passes `{Library} (cols : list string) (rws : list (list value))
    (i : nat) (r : list value) (t : Z) : Prop :=
  keep_customers cols rws !! i = Some r ∧
  to_datetime (field cols "InvoiceDate" <$> keep_customers cols rws) i = Some t ∧
  starts_with_C (astype_str (field cols "InvoiceNo" r)) = false ∧
  positive (field cols "Quantity" r) = true ∧
  positive (field cols "UnitPrice" r) = true.

(** The labels [cols] carry every required column. *)
Definition has_required (cols : list string) : Prop :=
  required_cols ⊆ list_to_set cols.

(** The entry of [Quantity * UnitPrice] for row [r], as a number. *)
Definition line_total `{Library} (cols : list string) (r : list value)
  : option number :=
  v ← mul_value (field cols "Quantity" r) (field cols "UnitPrice" r);
  to_number v.

(** [tx] is the record of row [r] with parsed date [t]: its invoice is the
    text of the row's invoice, its customer the cast of the row's customer,
    its quantity and price are the row's and its total is their product. *)
Definition record_of `{Library} (cols : list string) (r : list value) (t : Z)
    (tx : txn) : Prop :=
  astype_str (field cols "InvoiceNo" r) = VStr (InvoiceNo tx) ∧
  InvoiceDate tx = t ∧
  astype_int (field cols "CustomerID" r) = Some (CustomerID tx) ∧
  to_number (field cols "Quantity" r) = Some (Quantity tx) ∧
  to_number (field cols "UnitPrice" r) = Some (UnitPrice tx) ∧
  line_total cols r = Some (TotalPrice tx).

(** The distinct customer identifiers of a table. *)
Definition customers (df : list txn) : gset Z := list_to_set (CustomerID <$> df).

(** The rows of customer [k]. *)
Definition rows_of (k : Z) (df : list txn) : list txn :=
  filter (λ t, CustomerID t = k) df.

(** The distinct invoice identifiers of a list of rows. *)
Definition invoices (g : list txn) : gset string := list_to_set (InvoiceNo <$> g).

(** [m] is the greatest element of [l]. *)
Definition is_max (m : Z) (l : list Z) : Prop := m ∈ l ∧ ∀ x, x ∈ l → x ≤ m.

(** What the guards of lines 84 to 87 let through. *)
Definition admissible (r : rfm) : Prop :=
  (∃ d, Recency r = Some d ∧ 0 ≤ d) ∧
  (0 < Frequency r)%nat ∧
  (∃ q, Monetary r = Fin q ∧ (0 < q)%Qc).

(** The canonical name of one label. *)
Definition canon (c : string) : string :=
  default (strip c) (rename_map !! strip c).

(** The alternate spellings the script accepts. *)
Definition synonyms : list (string * string) :=
  [ ("Invoice", "InvoiceNo"); ("Customer ID", "CustomerID"); ("Price", "UnitPrice") ].

(** Two labels name the same field: they agree up to surrounding
    whitespace, or are the two spellings of one field. *)
Definition same_field (a b : string) : Prop :=
  strip a = strip b ∨
  (strip a, strip b) ∈ synonyms ∨ (strip b, strip a) ∈ synonyms.

(** ** The invariant of a cleaned record *)



(** ** Example tables *)

(** The frame [clean_transactions] returns, the empty frame if it raises. *)
Definition cleaned `{Library} (df : frame) : frame :=
  match clean df with
  | Ok c => c
  | Raise _ => empty_frame
  end.

Definition cleaned_txns `{Library} (df : frame) : list txn :=
  default [] (transactions (cleaned df)).

Definition ex_rows : list (list value) :=
  [ [VStr "536365"; VTime (10 * day); VNum (Fin (Qc_of_Z 17850)); VInt 6;
     VNum (Fin (Q2Qc (255#100))); VStr "UK"];
    [VStr "536365"; VTime (10 * day); VNum (Fin (Qc_of_Z 17850)); VInt 6;
     VNum (Fin (Q2Qc (275#100))); VStr "UK"];
    [VStr "C536366"; VTime (10 * day); VNum (Fin (Qc_of_Z 17850)); VInt (-6);
     VNum (Fin (Q2Qc (255#100))); VStr "UK"] ].

(** The rows of the end-to-end scenario under the alternate spellings, with
    whitespace around two labels. *)
Definition ex_raw : frame :=
  Frame [" Invoice"; "InvoiceDate "; "Customer ID"; "Quantity"; "Price"; "Country"]
        ex_rows.

(** The same rows under the canonical labels. *)
Definition ex_canonical : frame :=
  Frame ["InvoiceNo"; "InvoiceDate"; "CustomerID"; "Quantity"; "UnitPrice"; "Country"]
        ex_rows.

(** No quantity column. *)
Definition ex_no_quantity : frame :=
  Frame ["InvoiceNo"; "InvoiceDate"; "CustomerID"; "UnitPrice"]
        [ [VStr "536365"; VTime (10 * day); VInt 17850; VInt 2] ].


(** One sale whose invoice identifier starts with a lowercase [c]. *)
Definition ex_lowercase : frame :=
  Frame ["InvoiceNo"; "InvoiceDate"; "CustomerID"; "Quantity"; "UnitPrice"]
        [ [VStr "c536366"; VTime (10 * day); VInt 17850; VInt 1; VInt 2] ].


(** One sale of 2^32 items at 2^32 each. *)
Definition ex_wrap : frame :=
  Frame ["InvoiceNo"; "InvoiceDate"; "CustomerID"; "Quantity"; "UnitPrice"]
        [ [VStr "536365"; VTime (10 * day); VInt 17850; VInt (2 ^ 32);
           VInt (2 ^ 32)] ].

(** One customer with invoices A, A, B and another with a single invoice on
    an earlier day. *)
Definition ex_AAB : list txn :=
  [ Txn "A" (10 * day) 1 (Fin 1) (Fin 1) (Fin 1);
    Txn "A" (10 * day) 1 (Fin 1) (Fin 1) (Fin 1);
    Txn "B" (12 * day) 1 (Fin 1) (Fin 1) (Fin 1);
    Txn "D" (3 * day) 2 (Fin 1) (Fin 1) (Fin 1) ].

(** A customer one of whose totals is infinite, and a regular one. *)
Definition ex_infinite : list txn :=
  [ Txn "A" (10 * day) 1 (Inf false) (Fin 1) (Inf false);
    Txn "B" (10 * day) 2 (Fin 1) (Fin 1) (Fin 1) ].

(** ** What decides how [clean_transactions] ends *)

(** The rows on which the comparisons of line 58 run: those with a customer
    and a parsed date that are not cancellations. *)
Definition compared_rows `{Library} (cols : list string) (rws : list (list value))
  : list (list value) :=
  keep_sales cols (text_invoices cols (keep_dated cols (parse_dates cols
    (keep_customers cols rws)))).

(** Both comparisons of line 58 are defined on row [r]. *)
Definition comparable (cols : list string) (r : list value) : Prop :=
  is_Some (gt_zero (field cols "Quantity" r)) ∧
  is_Some (gt_zero (field cols "UnitPrice" r)).

(** The integer cast of line 61 is defined on row [r]. *)
Definition castable `{Library} (cols : list string) (r : list value) : Prop :=
  is_Some (astype_int (field cols "CustomerID" r)).

(** How the call ends on a frame that has the required labels [cols]. *)
Definition clean_outcome `{Library} (cols : list string) (rws : list (list value))
  : result frame :=
  if decide (Forall (comparable cols) (compared_rows cols rws)) then
    if decide (Forall (castable cols) (sales_rows cols rws)) then
      Ok (Frame (add_label "TotalPrice" cols) (clean_rows cols rws))
    else Raise CastError
  else Raise TypeError.

(** Every row is as wide as the labels [cols]. *)
Definition wide (cols : list string) (rws : list (list value)) : Prop :=
  Forall (λ r, length r = length cols) rws.

(** Row [r], at position [i] among the rows that have a customer, reaches
    the comparisons of line 58, with [t] as its parsed date. *)
Definition reaches `{Library} (cols : list string) (rws : list (list value))
    (i : nat) (r : list value) (t : Z) : Prop :=
  keep_customers cols rws !! i = Some r ∧
  to_datetime (field cols "InvoiceDate" <$> keep_customers cols rws) i = Some t ∧
  starts_with_C (astype_str (field cols "InvoiceNo" r)) = false.

(** The labels [clean_transactions] writes. *)
Definition written_labels : list string :=
  ["InvoiceNo"; "InvoiceDate"; "CustomerID"; "TotalPrice"].

(** ** More example tables *)

(** A text in the quantity of a cancellation, next to a regular sale. *)
Definition ex_text_in_cancellation : frame :=
  Frame ["InvoiceNo"; "InvoiceDate"; "CustomerID"; "Quantity"; "UnitPrice"]
        [ [VStr "C536366"; VTime (10 * day); VInt 17850; VStr "six"; VInt 2];
          [VStr "536365"; VTime (10 * day); VInt 17850; VInt 6; VInt 2] ].


(** A row as [clean_transactions] leaves it, under the labels [cols]. *)
Definition settled `{Library} (cols : list string) (r : list value) : Prop :=
  length r = length cols ∧
  (∃ s, field cols "InvoiceNo" r = VStr s ∧ String.prefix "C" s = false) ∧
  (∃ t, field cols "InvoiceDate" r = VTime t) ∧
  (∃ z, field cols "CustomerID" r = VInt z) ∧
  positive (field cols "Quantity" r) = true ∧
  positive (field cols "UnitPrice" r) = true ∧
  mul_value (field cols "Quantity" r) (field cols "UnitPrice" r)
  = Some (field cols "TotalPrice" r).

(** [pd.to_datetime] leaves a timestamp as it is. *)
Definition keeps_timestamps `{Library} : Prop :=
  ∀ col i t, col !! i = Some (VTime t) → to_datetime col i = Some t.

(** The table with every invoice date moved by [d] nanoseconds. *)
Definition shift_dates (d : Z) (df : list txn) : list txn :=
  (λ t, {| InvoiceNo := InvoiceNo t;
           InvoiceDate := InvoiceDate t + d;
           CustomerID := CustomerID t;
           Quantity := Quantity t;
           UnitPrice := UnitPrice t;
           TotalPrice := TotalPrice t |}) <$> df.

(** The recency and frequency of an aggregated row, with its customer. *)
Definition visits (r : rfm) : Z * option Z * nat :=
  (Customer r, Recency r, Frequency r).

(** ** Columns compared cell by cell

    pandas decides by the type of a column how [> 0] is evaluated: on a
    column that holds a number the comparison is made cell by cell (the
    column is numeric, or a column of objects), while a column of
    timestamps or of texts only is refused as a whole, even when no row is
    left. The label of a column must also be its only one for [df[name]] to
    be a column. *)
Definition is_number (v : value) : bool :=
  match v with
  | VInt _ => true
  | VNum x => bool_decide (x ≠ NaN)
  | _ => false
  end.

(** The column [name] holds a number. *)
Definition holds_number (cols : list string) (rws : list (list value))
    (name : string) : Prop :=
  Exists (λ r, is_number (field cols name r) = true) rws.

(** The labels are distinct once normalised, and the quantity and unit
    price columns hold a number each. *)
Definition plain (df : frame) : Prop :=
  NoDup (canonical (columns df)) ∧
  holds_number (canonical (columns df)) (rows df) "Quantity" ∧
  holds_number (canonical (columns df)) (rows df) "UnitPrice".

(** ** The script: [load_data] and [main]

    The script talks to the file system, to the pandas readers and writers
    and to the standard output. A run is modelled by the sequence of these
    calls, in order, and by how it ends. What the environment answers is a
    parameter: each call is made at most once with given arguments, so a
    function from the arguments to the answer describes the environment of
    one run. A library call that raises is an answer too. *)

Definition RAW_PATH_CSV : string := "data/raw/online_retail.csv".
Definition RAW_PATH_XLSX : string := "data/raw/online_retail.xlsx".
Definition OUT_PATH : string := "data/processed/rfm_features.csv".

(** An argument of [print]. *)
Inductive printable :=
  | Text (s : string)
  | Table (t : list rfm).

(** The calls the script makes to the outside. *)
Inductive effect :=
  | Exists (path : string)                       (* [os.path.exists] *)
  | ReadCsv (path encoding : string)             (* [pd.read_csv] *)
  | ReadExcel (path engine : string)             (* [pd.read_excel] *)
  | Print (args : list printable)                (* [print] *)
  | MakeDirs (path : string) (exist_ok : bool)   (* [os.makedirs] *)
  | ToCsv (path : string) (index : bool) (table : list rfm).
                                                 (* [DataFrame.to_csv] *)

(** The answers of the environment; [None] and [false] stand for a call
    that raises. *)
Record world := World {
  path_exists : string → bool;
  csv_file : string → string → option frame;
  excel_file : string → string → option frame;
  dirs_made : string → bool;
  csv_written : string → bool;
}.

(** How a run can fail. *)
Inductive failure :=
  | FileNotFoundError (msg : string)
  | Cleaning (e : exn)          (* raised by [clean_transactions] *)
  | Aggregation (e : rfm_error) (* raised by [build_rfm] *)
  | LibraryError (call : string) (* raised inside a library call *)
  | Untyped.                    (* [build_rfm] on a frame that does not read
                                   as typed records; outside the model *)

Inductive outcome (A : Type) :=
  | Done (a : A)
  | Failed (f : failure).
Arguments Done {A} a.
Arguments Failed {A} f.

Definition script (A : Type) : Type := world → list effect * outcome A.

Global Instance script_ret : MRet script := λ A a _, ([], Done a).
Global Instance script_bind : MBind script := λ A B k m w,
  match m w with
  | (tr, Done a) => let '(tr', o) := k a w in (tr ++ tr', o)
  | (tr, Failed f) => (tr, Failed f)
  end.

Definition fail {A} (f : failure) : script A := λ _, ([], Failed f).

Definition call {A} (e : effect) (call_name : string)
    (answer : world → option A) : script A := λ w,
  ([e], match answer w with
        | Some a => Done a
        | None => Failed (LibraryError call_name)
        end).

Definition os_path_exists (p : string) : script bool :=
  call (Exists p) "os.path.exists" (λ w, Some (path_exists w p)).
Definition pd_read_csv (p encoding : string) : script frame :=
  call (ReadCsv p encoding) "pd.read_csv" (λ w, csv_file w p encoding).
Definition pd_read_excel (p engine : string) : script frame :=
  call (ReadExcel p engine) "pd.read_excel" (λ w, excel_file w p engine).
Definition print (args : list printable) : script unit :=
  call (Print args) "print" (λ _, Some tt).
Definition os_makedirs (p : string) (exist_ok : bool) : script unit :=
  call (MakeDirs p exist_ok) "os.makedirs"
       (λ w, if dirs_made w p then Some tt else None).
Definition to_csv (table : list rfm) (p : string) (index : bool) : script unit :=
  call (ToCsv p index table) "DataFrame.to_csv"
       (λ w, if csv_written w p then Some tt else None).

(** [os.path.dirname] on POSIX paths: the part up to the last slash, without
    its trailing slashes unless it consists of slashes only. *)
Definition is_slash (c : Ascii.ascii) : bool := (Ascii.N_of_ascii c =? 47)%N.

Fixpoint upto_last_slash (p : string) : option string :=
  match p with
  | EmptyString => None
  | String a s =>
      match upto_last_slash s with
      | Some h => Some (String a h)
      | None => if is_slash a then Some (String a EmptyString) else None
      end
  end.

Fixpoint lstrip_slashes (s : string) : string :=
  match s with
  | String c s' => if is_slash c then lstrip_slashes s' else s
  | EmptyString => EmptyString
  end.

Definition dirname (p : string) : string :=
  let head := default EmptyString (upto_last_slash p) in
  if decide (lstrip_slashes head = EmptyString) then head
  else String.rev (lstrip_slashes (String.rev head)).

(** [str()] of a frame's [shape]. *)
Definition shape_text (nrows ncols : nat) : string :=
  "(" +:+ pretty nrows +:+ ", " +:+ pretty ncols +:+ ")".

Definition newline : string := String (Ascii.ascii_of_nat 10) EmptyString.

Definition load_data : script frame :=
  found ← os_path_exists RAW_PATH_CSV;
  if (found : bool) then pd_read_csv RAW_PATH_CSV "ISO-8859-1"
  else
    found ← os_path_exists RAW_PATH_XLSX;
    if (found : bool) then pd_read_excel RAW_PATH_XLSX "openpyxl"
    else fail (FileNotFoundError
      "Could not find dataset. Put it at data/raw/online_retail.csv or data/raw/online_retail.xlsx").

(** [clean_transactions(df_raw)] inside the script. *)
Definition cleaning `{Library} (df : frame) : script frame :=
  match clean df with
  | Ok c => mret c
  | Raise e => fail (Cleaning e)
  end.

(** [build_rfm(df_clean)] inside the script, on the typed view of the frame. *)
Definition aggregating `{Library} (df : frame) : script (list rfm) :=
  match transactions df with
  | Some ts =>
      match build_rfm_error ts with
      | Some e => fail (Aggregation e)
      | None => mret (build_rfm ts)
      end
  | None => fail Untyped
  end.

Definition main `{Library} : script unit :=
  df_raw ← load_data;
  print [Text ("Loaded: " +:+ shape_text (length (rows df_raw)) (length (columns df_raw))
               +:+ " rows, " +:+ pretty (length (columns df_raw)) +:+ " cols")];;
  df_clean ← cleaning df_raw;
  print [Text ("After cleaning: "
               +:+ shape_text (length (rows df_clean)) (length (columns df_clean))
               +:+ " rows")];;
  rfm ← aggregating df_clean;
  print [Text ("RFM built: " +:+ shape_text (length rfm) 4 +:+ " customers")];;
  os_makedirs (dirname OUT_PATH) true;;
  to_csv rfm OUT_PATH false;;
  print [Text ("Saved RFM features -> " +:+ OUT_PATH)];;
  print [Text (newline +:+ "Sample:" +:+ newline); Table (take 5 rfm)].




(** * Properties *)

Lemma need_bind {A B} e (o : option A) (k : A → result B) :
  (need e o ≫= k) = match o with Some a => k a | None => Raise e end.
Proof. by destruct o. Qed.

Lemma pick_fmap {A} (p : A → bool) (l : list A) :
  pick (p <$> l) l = filter (λ x, p x = true) l.
Proof.
  induction l as [|x l IH]; [done|]. rewrite filter_cons, <-IH. cbn.
  destruct (p x); by case_decide.
Qed.

Lemma zip_with_fmap_diag {A B C} (f : B → A → C) (g : A → B) (l : list A) :
  zip_with f (g <$> l) l = (λ x, f (g x) x) <$> l.
Proof. induction l; simpl; by f_equal. Qed.

Lemma zip_with_imap_diag {A B C} (f : B → A → C) (g : nat → A → B) (l : list A) :
  zip_with f (imap g l) l = imap (λ i x, f (g i x) x) l.
Proof.
  revert g. induction l as [|x l IH]; intros g; simpl; [done|].
  f_equal. apply IH.
Qed.

Lemma imap_fmap_const {A B C} (g : nat → C) (f : A → B) (l : list A) :
  imap (λ i _, g i) (f <$> l) = imap (λ i _, g i) l.
Proof.
  revert g. induction l as [|x l IH]; intros g; simpl; [done|].
  f_equal. apply (IH (g ∘ S)).
Qed.

Lemma mapM_default {A B} (h : A → option B) (d : B) (l : list A) (ys : list B) :
  mapM h l = Some ys →
  ys = (λ x, default d (h x)) <$> l ∧ Forall (λ x, is_Some (h x)) l.
Proof.
  intros Hm. apply mapM_Some in Hm.
  induction Hm as [|x y l ys Hxy _ [IH1 IH2]]; [done|].
  split; [simpl; rewrite Hxy; simpl; by f_equal|].
  constructor; [by eexists|done].
Qed.

Lemma column_frame name cols rws col :
  column name (Frame cols rws) = Some col →
  is_Some (index_of name cols) ∧ col = field cols name <$> rws.
Proof.
  unfold column. simpl. destruct (index_of name cols); simpl; [|done].
  intros [= <-]. eauto.
Qed.

Lemma select_field (p : value → bool) name cols rws :
  select (p <$> (field cols name <$> rws)) (Frame cols rws)
  = Frame cols (filter (λ r, p (field cols name r) = true) rws).
Proof.
  unfold select. simpl. by rewrite <-list_fmap_compose, pick_fmap.
Qed.

Lemma add_label_present name cols :
  is_Some (index_of name cols) → add_label name cols = cols.
Proof. unfold add_label. by intros [i ->]. Qed.

Lemma assign_fmap (g : list value → value) name cols rws :
  assign name (g <$> rws) (Frame cols rws)
  = Frame (add_label name cols) ((λ r, set_field cols name (g r) r) <$> rws).
Proof. unfold assign. simpl. by rewrite zip_with_fmap_diag. Qed.

Lemma missing_empty (X Y : gset string) : X ∖ Y = ∅ ↔ X ⊆ Y.
Proof.
  split; [|apply subseteq_empty_difference_L].
  intros E x Hx. destruct (decide (x ∈ Y)); [done|]. set_solver.
Qed.

Section Rows_of_clean_value.
Context `{Library}.

Lemma assign_dates cols rws :
  assign "InvoiceDate" (to_datetime_col (field cols "InvoiceDate" <$> rws))
         (Frame cols rws)
  = Frame (add_label "InvoiceDate" cols) (parse_dates cols rws).
Proof.
  unfold assign, to_datetime_col, parse_dates. simpl. f_equal.
  rewrite (imap_fmap_const
             (λ i, date_cell (to_datetime (field cols "InvoiceDate" <$> rws) i))).
  by rewrite zip_with_imap_diag.
Qed.

Ltac col_step Hc :=
  rewrite need_bind in Hc;
  match type of Hc with
  | match ?o with Some _ => _ | None => _ end = _ =>
      let E := fresh "E" in destruct o eqn:E; [|discriminate Hc]
  end.
Ltac read_col Hc HiX :=
  col_step Hc;
  match goal with E : column _ _ = Some _ |- _ =>
    apply column_frame in E as [HiX ->] end.
Ltac map_step Hc d HX :=
  col_step Hc;
  match goal with E : mapM _ _ = Some _ |- _ =>
    apply (mapM_default _ d) in E as [-> HX] end.

Lemma clean_value_rows df c :
  clean_value df = Ok c →
  let cols := canonical (columns df) in
  required_cols ⊆ list_to_set cols ∧
  columns c = add_label "TotalPrice" cols ∧
  rows c = clean_rows cols (rows df) ∧
  Forall (λ r, is_Some (astype_int (field cols "CustomerID" r)))
         (sales_rows cols (rows df)).
Proof.
  destruct df as [cols0 rws]. unfold clean_value. cbv zeta. simpl columns. simpl rows.
  set (cols := canonical cols0).
  destruct (decide _) as [|Hreq]; [done|].
  intros Hc.
  read_col Hc HiC. rewrite select_field in Hc.
  change (filter _ rws) with (keep_customers cols rws) in Hc.
  set (r1 := keep_customers cols rws) in *.
  read_col Hc HiD. rewrite assign_dates, (add_label_present _ _ HiD) in Hc.
  set (r2 := parse_dates cols r1) in *.
  read_col Hc HiD'. rewrite select_field in Hc.
  change (filter _ r2) with (keep_dated cols r2) in Hc.
  set (r3 := keep_dated cols r2) in *.
  read_col Hc HiN. rewrite <-list_fmap_compose, assign_fmap, (add_label_present _ _ HiN) in Hc.
  change (_ <$> r3) with (text_invoices cols r3) in Hc.
  set (r4 := text_invoices cols r3) in *.
  read_col Hc HiN'. map_step Hc false HX.
  rewrite <-(list_fmap_compose _ negb), select_field in Hc.
  change (filter _ r4) with (keep_sales cols r4) in Hc.
  set (r5 := keep_sales cols r4) in *.
  read_col Hc HiQ. map_step Hc false HQ.
  read_col Hc HiP. map_step Hc false HP.
  rewrite <-!list_fmap_compose, zip_with_fmap_l, zip_with_fmap_r, zip_with_diag in Hc.
  unfold select in Hc. simpl in Hc. rewrite pick_fmap in Hc.
  change (filter _ r5) with (keep_positive cols r5) in Hc.
  set (r6 := keep_positive cols r5) in *.
  read_col Hc HiC'. map_step Hc 0 HC.
  rewrite <-!list_fmap_compose, assign_fmap, (add_label_present _ _ HiC) in Hc.
  change (_ <$> r6) with (int_customers cols r6) in Hc.
  set (r7 := int_customers cols r6) in *.
  read_col Hc HiQ'. read_col Hc HiP'.
  rewrite zip_with_fmap_l, zip_with_fmap_r, zip_with_diag in Hc.
  map_step Hc VNone HT.
  rewrite <-!list_fmap_compose, assign_fmap in Hc.
  injection Hc as <-. simpl.
  split_and!; [|done|done|].
  { apply missing_empty. by destruct (decide (required_cols ∖ list_to_set cols = ∅)). }
  by rewrite Forall_fmap in HC.
Qed.
End Rows_of_clean_value.

Section Run.
Context {A : Type} (h : heap) (l : loc) (f : frame).
Hypothesis Hl : h !! l = Some f.

Lemma run_get_columns (k : list string → M A) :
  (get_columns l ≫= k) h = k (columns f) h.
Proof. unfold get_columns, load, mbind, M_bind, bind, mret, M_ret, ret. by rewrite Hl. Qed.

Lemma run_set_columns cs (k : unit → M A) :
  (set_columns l cs ≫= k) h = k tt (<[l := Frame cs (rows f)]> h).
Proof. unfold set_columns, load, store, mbind, M_bind, bind. by rewrite Hl. Qed.

Lemma run_rename mapper (k : loc → M A) :
  (rename l mapper ≫= k) h
  = k (length h) (h ++ [Frame (rename_labels mapper (columns f)) (rows f)]).
Proof. unfold rename, load, alloc, mbind, M_bind, bind. by rewrite Hl. Qed.

Lemma run_getitem name (k : list value → M A) :
  (getitem l name ≫= k) h
  = match column name f with
    | Some col => k col h
    | None => (h, Raise (KeyError name))
    end.
Proof.
  unfold getitem, load, try, mbind, M_bind, bind. rewrite Hl. simpl.
  by destruct (column name f).
Qed.

Lemma run_setitem name col (k : unit → M A) :
  (setitem l name col ≫= k) h = k tt (<[l := assign name col f]> h).
Proof. unfold setitem, load, store, mbind, M_bind, bind. by rewrite Hl. Qed.

Lemma run_getitem_mask mask (k : loc → M A) :
  (getitem_mask l mask ≫= k) h = k (length h) (h ++ [select mask f]).
Proof. unfold getitem_mask, load, alloc, mbind, M_bind, bind. by rewrite Hl. Qed.

Lemma run_dropna name (k : loc → M A) :
  (dropna l name ≫= k) h
  = match column name f with
    | Some col => k (length h) (h ++ [select (notna <$> col) f])
    | None => (h, Raise (KeyError name))
    end.
Proof.
  unfold dropna, getitem, getitem_mask, load, alloc, try, mbind, M_bind, bind.
  rewrite Hl. simpl. destruct (column name f); simpl; by rewrite ?Hl.
Qed.

Lemma run_copy (k : loc → M A) :
  (copy l ≫= k) h = k (length h) (h ++ [f]).
Proof. unfold copy, load, alloc, mbind, M_bind, bind. by rewrite Hl. Qed.
End Run.

Lemma run_try {A B} e (o : option A) (k : A → M B) h :
  (try e o ≫= k) h = match o with Some a => k a h | None => (h, Raise e) end.
Proof. by destruct o. Qed.

Ltac heap_step :=
  first
    [ erewrite run_get_columns by reflexivity
    | erewrite run_set_columns by reflexivity
    | erewrite run_rename by reflexivity
    | erewrite run_dropna by reflexivity
    | erewrite run_copy by reflexivity
    | erewrite run_getitem by reflexivity
    | erewrite run_setitem by reflexivity
    | erewrite run_getitem_mask by reflexivity
    | rewrite run_try ];
  rewrite ?need_bind;
  cbv beta iota zeta delta [length app insert list_insert].

Ltac branch :=
  match goal with
  | |- agrees (match ?x with Some _ => _ | None => _ end) _ _ => destruct x eqn:?
  end.

Section Heap_erasure.
Context `{Library}.

Lemma clean_agrees df :
  agrees (run_clean df) (Frame (strip <$> columns df) (rows df)) (clean_value df).
Proof.
  destruct df as [cols rws].
  unfold run_clean, clean_transactions, clean_value, canonical.
  cbv zeta. cbv beta iota delta [columns rows].
  do 5 (heap_step; cbv beta iota delta [columns rows]).
  destruct (decide _); [done|].
  repeat (heap_step; try (branch; [|done])).
  done.
Qed.

Lemma clean_heap_free df :
  clean df = clean_value df ∧
  input_after df = Frame (strip <$> columns df) (rows df).
Proof.
  pose proof (clean_agrees df) as [H0 Hr]. unfold clean, input_after.
  destruct (run_clean df) as [h [l|e]]; simpl in *; rewrite H0; simpl;
    (split; [|done]); destruct (clean_value df); try done; [|congruence].
  by rewrite Hr.
Qed.
End Heap_erasure.

(** *** Labels and positions *)

Lemma index_of_Some name cols i :
  index_of name cols = Some i → cols !! i = Some name.
Proof.
  revert i. induction cols as [|c cols IH]; intros i; simpl; [done|].
  case_decide as Hc; [by intros [= <-]; subst|].
  destruct (index_of name cols) as [j|]; simpl; [|done].
  intros [= <-]. by apply IH.
Qed.

Lemma index_of_lt name cols i :
  index_of name cols = Some i → (i < length cols)%nat.
Proof. intros Hi. by eapply lookup_lt_Some, index_of_Some. Qed.

Lemma index_of_inj n1 n2 cols i :
  index_of n1 cols = Some i → index_of n2 cols = Some i → n1 = n2.
Proof. intros H1%index_of_Some H2%index_of_Some. congruence. Qed.

Lemma index_of_elem name cols :
  is_Some (index_of name cols) ↔ name ∈ cols.
Proof.
  induction cols as [|c cols IH]; simpl.
  - split; [by intros [??]|by intros ?%elem_of_nil].
  - case_decide as Hc; [subst; split; [left|eauto]|].
    rewrite elem_of_cons, <-IH, fmap_is_Some. naive_solver.
Qed.

Lemma index_of_app_l name cols extra i :
  index_of name cols = Some i → index_of name (cols ++ extra) = Some i.
Proof.
  revert i. induction cols as [|c cols IH]; intros i; simpl; [done|].
  case_decide; [done|].
  destruct (index_of name cols) as [j|]; simpl; [|done].
  intros [= <-]. by rewrite (IH j).
Qed.

Lemma index_of_app_new name cols :
  index_of name cols = None → index_of name (cols ++ [name]) = Some (length cols).
Proof.
  induction cols as [|c cols IH]; simpl; [by rewrite decide_True|].
  case_decide; [done|].
  destruct (index_of name cols); simpl; [done|]. intros _. by rewrite IH.
Qed.

Lemma index_of_app_other name other cols :
  name ≠ other → index_of name cols = None →
  index_of name (cols ++ [other]) = None.
Proof.
  intros Hne. induction cols as [|c cols IH]; simpl; [by rewrite decide_False|].
  case_decide; [done|].
  destruct (index_of name cols); simpl; [done|]. intros _. by rewrite IH.
Qed.

(** *** Reading a row after writing it *)

Section Fields.
Context (cols : list string) (r : list value).
Hypothesis Hlen : length r = length cols.

Lemma length_set_field name v :
  is_Some (index_of name cols) → length (set_field cols name v r) = length r.
Proof. unfold set_field. intros [i ->]. apply length_insert. Qed.

Lemma field_set_field name v :
  is_Some (index_of name cols) → field cols name (set_field cols name v r) = v.
Proof.
  unfold field, set_field, cell. intros [i Hi]. rewrite Hi.
  rewrite list_lookup_insert_eq; [done|].
  rewrite Hlen. by eapply index_of_lt.
Qed.

Lemma field_set_field_ne name other v :
  name ≠ other →
  field cols other (set_field cols name v r) = field cols other r.
Proof.
  unfold field, set_field, cell. intros Hne.
  destruct (index_of other cols) as [j|] eqn:Hj; [|done].
  destruct (index_of name cols) as [i|] eqn:Hi.
  - rewrite list_lookup_insert_ne; [done|].
    intros ->. by destruct Hne; eapply index_of_inj.
  - rewrite lookup_app_l; [done|]. rewrite Hlen. by eapply index_of_lt.
Qed.

Lemma field_add_label name v :
  field (add_label name cols) name (set_field cols name v r) = v.
Proof.
  unfold add_label, field, set_field, cell.
  destruct (index_of name cols) as [i|] eqn:Hi.
  - rewrite Hi, list_lookup_insert_eq; [done|].
    rewrite Hlen. by eapply index_of_lt.
  - rewrite index_of_app_new by done.
    rewrite <-Hlen, lookup_app_r, Nat.sub_diag by done. done.
Qed.

Lemma field_add_label_ne name other v :
  name ≠ other →
  field (add_label name cols) other (set_field cols name v r)
  = field cols other r.
Proof.
  intros Hne. rewrite <-(field_set_field_ne name other v Hne).
  unfold add_label, field.
  destruct (index_of name cols) as [i|] eqn:Hi; [done|].
  destruct (index_of other cols) as [j|] eqn:Hj.
  - by rewrite (index_of_app_l _ _ _ _ Hj).
  - by rewrite index_of_app_other.
Qed.
End Fields.

Lemma has_required_index cols name :
  has_required cols → name ∈ required_cols → is_Some (index_of name cols).
Proof.
  intros Hreq Hn. apply index_of_elem.
  apply (elem_of_list_to_set (C:=gset string)). by apply Hreq.
Qed.

Ltac len := repeat (rewrite length_set_field by done); done.
Ltac fields :=
  repeat first
    [ rewrite field_set_field by first [done | len]
    | rewrite field_set_field_ne by first [done | len] ].
Ltac fields_in H :=
  repeat first
    [ rewrite field_set_field in H by first [done | len]
    | rewrite field_set_field_ne in H by first [done | len] ].

Section Rows.
Context `{Library} (cols : list string) (rws : list (list value)).
Hypothesis Hreq : has_required cols.
Hypothesis Hwf : Forall (λ r, length r = length cols) rws.

Lemma index_InvoiceNo : is_Some (index_of "InvoiceNo" cols).
Proof. apply has_required_index; [done|]. unfold required_cols. set_solver. Qed.
Lemma index_InvoiceDate : is_Some (index_of "InvoiceDate" cols).
Proof. apply has_required_index; [done|]. unfold required_cols. set_solver. Qed.
Lemma index_CustomerID : is_Some (index_of "CustomerID" cols).
Proof. apply has_required_index; [done|]. unfold required_cols. set_solver. Qed.

Lemma date_cell_notna o : notna (date_cell o) = true ↔ is_Some o.
Proof. destruct o; simpl; split; (done || eauto || by intros [??]). Qed.

Lemma passes_length i r t : passes cols rws i r t → length r = length cols.
Proof.
  intros [Hi _]. apply list_elem_of_lookup_2 in Hi.
  apply list_elem_of_filter in Hi as [_ Hi].
  by eapply (proj1 (Forall_forall _ _) Hwf).
Qed.

Lemma sales_rows_elem r' :
  r' ∈ sales_rows cols rws ↔
  ∃ i r t, passes cols rws i r t ∧ r' = sale_row cols t r.
Proof.
  pose proof index_InvoiceNo as HN. pose proof index_InvoiceDate as HD.
  unfold sales_rows, keep_positive, keep_sales, text_invoices, keep_dated,
    parse_dates.
  split.
  - intros [Hpos H6]%list_elem_of_filter.
    apply list_elem_of_filter in H6 as [Hsale H6].
    apply list_elem_of_fmap in H6 as (r3 & -> & H3).
    apply list_elem_of_filter in H3 as [Hd H3].
    apply elem_of_lookup_imap in H3 as (i & r & -> & Hi).
    assert (Hlen : length r = length cols).
    { apply list_elem_of_lookup_2 in Hi.
      apply list_elem_of_filter in Hi as [_ Hi].
      by eapply (proj1 (Forall_forall _ _) Hwf). }
    rewrite field_set_field in Hd by done.
    apply date_cell_notna in Hd as [t Ht].
    rewrite Ht in *. simpl date_cell in *.
    fields_in Hpos. fields_in Hsale.
    apply andb_true_iff in Hpos as [HQ HP].
    apply negb_true_iff in Hsale.
    exists i, r, t. split; [done|]. unfold sale_row. by fields.
  - intros (i & r & t & Hp & ->).
    pose proof (passes_length _ _ _ Hp) as Hlen.
    destruct Hp as (Hi & Ht & Hsale & HQ & HP).
    pose proof (elem_of_lookup_imap_2
      (λ i r, set_field cols "InvoiceDate"
         (date_cell (to_datetime
            (field cols "InvoiceDate" <$> keep_customers cols rws) i)) r)
      _ r i Hi) as H2.
    cbv beta in H2. rewrite Ht in H2. simpl date_cell in H2.
    unfold sale_row.
    apply list_elem_of_filter. split; [fields; by rewrite HQ, HP|].
    apply list_elem_of_filter. split; [fields; by rewrite Hsale|].
    apply list_elem_of_fmap. exists (set_field cols "InvoiceDate" (VTime t) r).
    split; [by fields|].
    apply list_elem_of_filter. split; [by fields|done].
Qed.

Lemma length_sale_row t r :
  length r = length cols → length (sale_row cols t r) = length cols.
Proof.
  pose proof index_InvoiceNo as HN. pose proof index_InvoiceDate as HD. intros Hlen. unfold sale_row. len.
Qed.

Lemma clean_rows_elem r' :
  r' ∈ clean_rows cols rws ↔
  ∃ i r t, passes cols rws i r t ∧ r' = cleaned_row cols t r.
Proof.
  pose proof index_InvoiceNo as HN. pose proof index_InvoiceDate as HD. pose proof index_CustomerID as HC.
  unfold clean_rows, add_totals, int_customers.
  rewrite <-list_fmap_compose, list_elem_of_fmap.
  split.
  - intros (r4 & -> & (i & r & t & Hp & ->)%sales_rows_elem).
    exists i, r, t. split; [done|].
    pose proof (passes_length _ _ _ Hp) as Hlen.
    unfold cleaned_row, sale_row. simpl. by fields.
  - intros (i & r & t & Hp & ->).
    exists (sale_row cols t r). split; [|apply sales_rows_elem; eauto].
    pose proof (passes_length _ _ _ Hp) as Hlen.
    unfold cleaned_row, sale_row. simpl. by fields.
Qed.
End Rows.

(** *** Numbers *)

Lemma Qc_of_Z_pos z : 0 < z ↔ (0 < Qc_of_Z z)%Qc.
Proof. by rewrite Z2Qc_inj_lt, Z2Qc_inj_0. Qed.

Lemma positive_number v :
  positive v = true ↔ ∃ q, to_number v = Some q ∧ num_pos q = true.
Proof.
  unfold positive. destruct v as [| |z|x|s|t]; simpl;
    try (split; [done|by intros (? & ? & ?)]).
  - rewrite bool_decide_eq_true, Qc_of_Z_pos. split.
    + intros Hz. eexists. split; [done|]. simpl. by apply bool_decide_eq_true.
    + intros (q & [= <-] & Hq). by apply bool_decide_eq_true in Hq.
  - split; [eauto|]. by intros (q & [= <-] & Hq).
Qed.

Lemma mul_value_number `{Library} a b q p :
  to_number a = Some q → to_number b = Some p →
  ∃ v x, mul_value a b = Some v ∧ to_number v = Some x.
Proof.
  destruct a as [| |x|x| |], b as [| |y|y| |]; simpl; try done;
    intros [= <-] [= <-]; by eexists _, _.
Qed.

Lemma length_canonical cols : length (canonical cols) = length cols.
Proof. unfold canonical, rename_labels. by rewrite !length_fmap. Qed.

Section View.
Context `{Library} (cols : list string) (rws : list (list value)).
Hypothesis Hreq : has_required cols.
Hypothesis Hwf : Forall (λ r, length r = length cols) rws.

Lemma record_of_inj r t tx1 tx2 :
  record_of cols r t tx1 → record_of cols r t tx2 → tx1 = tx2.
Proof.
  destruct tx1, tx2. unfold record_of. simpl.
  intros (?&?&?&?&?&?) (?&?&?&?&?&?). simplify_eq. congruence.
Qed.

Lemma read_cleaned_row i r t :
  passes cols rws i r t →
  is_Some (astype_int (field cols "CustomerID" r)) →
  ∃ tx, read_txn (add_label "TotalPrice" cols) (cleaned_row cols t r) = Some tx
        ∧ record_of cols r t tx.
Proof.
  intros Hp [z Hz].
  pose proof (passes_length _ _ Hwf _ _ _ Hp) as Hlen.
  pose proof (index_InvoiceNo _ Hreq) as HN. pose proof (index_InvoiceDate _ Hreq) as HD.
  pose proof (index_CustomerID _ Hreq) as HC.
  destruct Hp as (Hi & Ht & Hsale & HQ & HP).
  apply positive_number in HQ as (q & Hq & Hqpos).
  apply positive_number in HP as (p & Hp & Hppos).
  destruct (mul_value_number _ _ _ _ Hq Hp) as (v & x & Hv & Hvn).
  assert (∃ s, astype_str (field cols "InvoiceNo" r) = VStr s) as [s Hs].
  { destruct (field cols "InvoiceNo" r); simpl; eauto. }
  exists (Txn s t z q p x). split.
  2:{ repeat split; try done. unfold line_total. by rewrite Hv. }
  unfold read_txn, cleaned_row.
  rewrite field_add_label by (unfold sale_row; len).
  rewrite !field_add_label_ne by first [done | unfold sale_row; len].
  unfold sale_row. fields.
  by rewrite Hs, Hz, Hq, Hp, Hv; simpl; rewrite Hvn.
Qed.
End View.

Section Cleaned_records.
Context `{Library}.

Lemma length_clean_rows cols rws :
  (length (clean_rows cols rws) ≤ length rws)%nat.
Proof.
  unfold clean_rows, add_totals, int_customers, sales_rows, keep_positive,
    keep_sales, text_invoices, keep_dated, parse_dates, keep_customers.
  rewrite !length_fmap.
  etrans; [apply length_filter|]. etrans; [apply length_filter|].
  rewrite length_fmap. etrans; [apply length_filter|].
  rewrite length_imap. apply length_filter.
Qed.


Theorem clean_transactions_rows df c :
  wf_frame df → clean df = Ok c →
  let cols := canonical (columns df) in
  has_required cols ∧
  (length (rows c) ≤ length (rows df))%nat ∧
  ∃ ts, transactions c = Some ts ∧ length ts = length (rows c) ∧
    ∀ tx, tx ∈ ts ↔ ∃ i r t, passes cols (rows df) i r t ∧ record_of cols r t tx.
Proof.
  intros Hwf Hc cols. rewrite (proj1 (clean_heap_free df)) in Hc.
  apply clean_value_rows in Hc as (Hreq & Hcols & Hrows & Hcast).
  fold cols in Hreq, Hcols, Hrows, Hcast.
  assert (Hwf' : Forall (λ r, length r = length cols) (rows df)).
  { unfold cols. by setoid_rewrite length_canonical. }
  split; [done|]. split; [rewrite Hrows; apply length_clean_rows|].
  assert (Hcast' : ∀ i r t, passes cols (rows df) i r t →
                   is_Some (astype_int (field cols "CustomerID" r))).
  { intros i r t Hp.
    pose proof (passes_length _ _ Hwf' _ _ _ Hp) as Hlen.
    pose proof (index_InvoiceNo _ Hreq) as HN.
    pose proof (index_InvoiceDate _ Hreq) as HD.
    assert (Hin : sale_row cols t r ∈ sales_rows cols (rows df))
      by (apply sales_rows_elem; eauto).
    apply (proj1 (Forall_forall _ _) Hcast) in Hin.
    unfold sale_row in Hin. by fields_in Hin. }
  assert (Hread : ∀ r', r' ∈ rows c →
            ∃ i r t tx, passes cols (rows df) i r t ∧
              read_txn (columns c) r' = Some tx ∧ record_of cols r t tx).
  { intros r' Hr'. rewrite Hrows in Hr'.
    apply clean_rows_elem in Hr' as (i & r & t & Hp & ->); [|done..].
    destruct (read_cleaned_row _ _ Hreq Hwf' _ _ _ Hp (Hcast' _ _ _ Hp))
      as (tx & Htx & Hrec).
    exists i, r, t, tx. by rewrite Hcols. }
  destruct (mapM_is_Some_2 (read_txn (columns c)) (rows c)) as [ts Hts].
  { apply Forall_forall. intros r' (?&?&?&tx&?&Hr&?)%Hread. simpl. by rewrite Hr. }
  exists ts. split; [done|]. split; [by erewrite <-length_mapM|].
  apply mapM_Some in Hts. intros tx. split.
  - intros [j Hj]%list_elem_of_lookup.
    destruct (Forall2_lookup_r _ _ _ _ _ Hts Hj) as (r' & Hr' & Hrd).
    apply list_elem_of_lookup_2, Hread in Hr' as (i & r & t & tx' & Hp & Hrd' & Hrec).
    exists i, r, t. split; [done|]. congruence.
  - intros (i & r & t & Hp & Hrec).
    assert (Hin : cleaned_row cols t r ∈ rows c).
    { rewrite Hrows. apply clean_rows_elem; eauto. }
    apply list_elem_of_lookup in Hin as [j Hj].
    destruct (Forall2_lookup_l _ _ _ _ _ Hts Hj) as (tx' & Hj' & Hrd).
    destruct (read_cleaned_row _ _ Hreq Hwf' _ _ _ Hp (Hcast' _ _ _ Hp))
      as (tx'' & Htx & Hrec'').
    rewrite Hcols, Htx in Hrd. injection Hrd as <-.
    rewrite (record_of_inj _ _ _ _ _ Hrec Hrec'').
    by eapply list_elem_of_lookup_2.
Qed.
End Cleaned_records.

Lemma day_pos : 0 < day.
Proof. reflexivity. Qed.

Lemma max_time_is_max l m : max_time l = Some m → is_max m l.
Proof.
  revert m. induction l as [|x l IH]; intros m; simpl; [done|].
  destruct (max_time l) as [m'|] eqn:Hm; simpl; intros [= <-].
  - destruct (IH m' eq_refl) as [Hin Hub]. split.
    + destruct (Z.max_spec x m') as [[_ ->]|[_ ->]]; [by right|by left].
    + intros y [->|Hy]%elem_of_cons; [lia|]. specialize (Hub y Hy). lia.
  - destruct l; [|done]. split; [by left|].
    by intros y [->|?%elem_of_nil]%elem_of_cons.
Qed.

Lemma max_time_is_Some l : l ≠ [] → is_Some (max_time l).
Proof. destruct l; [done|]. simpl. eauto. Qed.

Lemma is_max_unique m m' l : is_max m l → is_max m' l → m = m'.
Proof. intros [H1 H2] [H3 H4]. specialize (H2 _ H3). specialize (H4 _ H1). lia. Qed.

Lemma days_lower m gm : gm ≤ m → 1 ≤ days (m + day - gm).
Proof.
  intros Hle. unfold days. pose proof day_pos.
  apply Z.div_le_lower_bound; lia.
Qed.

Lemma days_same m : days (m + day - m) = 1.
Proof.
  unfold days. replace (m + day - m) with day by lia.
  apply Z.div_same. pose proof day_pos. lia.
Qed.

Lemma nunique_size l : nunique l = size (list_to_set l : gset string).
Proof.
  unfold nunique. rewrite <-(size_list_to_set (C:=gset string)) by apply NoDup_remove_dups.
  f_equal. apply set_eq. intros x. by rewrite !elem_of_list_to_set, elem_of_remove_dups.
Qed.

Lemma groupby_elem df k g :
  (k, g) ∈ groupby df ↔ k ∈ customers df ∧ g = rows_of k df.
Proof.
  unfold groupby, customers, rows_of. rewrite list_elem_of_fmap. split.
  - intros (k' & [= -> ->] & Hk). split; [|done].
    rewrite merge_sort_Permutation, elem_of_remove_dups in Hk.
    by apply elem_of_list_to_set.
  - intros [Hk ->]. exists k. split; [done|].
    rewrite merge_sort_Permutation, elem_of_remove_dups.
    by apply elem_of_list_to_set in Hk.
Qed.

Lemma length_groupby df : length (groupby df) = size (customers df).
Proof.
  unfold groupby, customers. rewrite length_fmap, merge_sort_Permutation.
  rewrite <-(size_list_to_set (C:=gset Z)) by apply NoDup_remove_dups.
  f_equal. apply set_eq. intros x. by rewrite !elem_of_list_to_set, elem_of_remove_dups.
Qed.

Lemma NoDup_groupby_keys df : NoDup (groupby df).*1.
Proof.
  unfold groupby. rewrite <-list_fmap_compose.
  assert (Hid : ∀ l : list Z,
    (fst ∘ (λ k, (k, filter (λ t, CustomerID t = k) df))) <$> l = l).
  { induction l as [|k l IH]; [done|]. rewrite fmap_cons, IH. done. }
  rewrite Hid, merge_sort_Permutation. apply NoDup_remove_dups.
Qed.

Lemma agg_elem `{Library} s df r :
  r ∈ agg s (groupby df) ↔
  Customer r ∈ customers df ∧
  r = {| Customer := Customer r;
         Recency := recency s (InvoiceDate <$> rows_of (Customer r) df);
         Frequency := nunique (InvoiceNo <$> rows_of (Customer r) df);
         Monetary := sum (TotalPrice <$> rows_of (Customer r) df) |}.
Proof.
  unfold agg. rewrite list_elem_of_fmap. split.
  - intros ([k g] & -> & [Hk ->]%groupby_elem). by simpl.
  - intros [Hk ->]. exists (Customer r, rows_of (Customer r) df).
    split; [done|]. by apply groupby_elem.
Qed.

Lemma build_rfm_elem `{Library} df r :
  r ∈ build_rfm df ↔
  r ∈ agg (snapshot_date df) (groupby df) ∧ admissible r.
Proof.
  unfold build_rfm, admissible. cbv zeta.
  rewrite !list_elem_of_filter, list_elem_of_fmap. unfold sane, rfm_notna.
  rewrite !andb_true_iff, !bool_decide_eq_true. split.
  - intros (((Hf & Hm) & Hr) & _ & r0 & -> & Hin).
    destruct r0 as [k rec f [q|n|]]; simpl in *; try done.
    split; [done|]. destruct rec as [d|]; simpl in *; [|done].
    apply bool_decide_eq_true in Hr, Hm. eauto 10.
  - intros (Hin & (d & Hd & Hd0) & Hf & q & Hq & Hq0).
    destruct r as [k rec f m]; simpl in *; subst.
    split_and!; try done.
    + by apply bool_decide_eq_true.
    + simpl. by apply bool_decide_eq_true.
    + eexists; split; [|done]. done.
Qed.

Lemma rename_mapper_lookup cols c :
  c ∈ cols → rename_mapper cols !! c = rename_map !! c.
Proof.
  intros Hc. unfold rename_mapper.
  destruct (rename_map !! c) as [c'|] eqn:E.
  - apply elem_of_list_to_map_1'.
    + intros y (x & Hx & Hxy)%list_elem_of_omap.
      destruct (rename_map !! x) eqn:Ex; simpl in Hxy; [|done].
      injection Hxy as -> ->. congruence.
    + apply list_elem_of_omap. exists c. by rewrite E.
  - apply not_elem_of_list_to_map_1.
    intros ([c1 c2] & Heq & (x & Hx & Hxy)%list_elem_of_omap)%list_elem_of_fmap.
    destruct (rename_map !! x) eqn:Ex; simpl in Hxy; [|done].
    injection Hxy as -> ->. simpl in Heq. congruence.
Qed.

Lemma canonical_canon cols : canonical cols = canon <$> cols.
Proof.
  unfold canonical, rename_labels. rewrite <-list_fmap_compose.
  apply list_fmap_ext. intros i c Hc. simpl. unfold canon.
  rewrite rename_mapper_lookup; [done|].
  apply list_elem_of_fmap. exists c. split; [done|]. by eapply list_elem_of_lookup_2.
Qed.

Lemma same_field_canon a b : same_field a b → canon a = canon b.
Proof.
  unfold same_field, canon, synonyms.
  intros [->|[Hs|Hs]]; [done| |];
    repeat (apply elem_of_cons in Hs as [[= -> ->]|Hs]; [by vm_compute|]);
    by apply elem_of_nil in Hs.
Qed.

Lemma passes_raw `{Library} cols rws i r t :
  passes cols rws i r t →
  r ∈ rws ∧ notna (field cols "CustomerID" r) = true.
Proof.
  intros [Hi _]. apply list_elem_of_lookup_2, list_elem_of_filter in Hi. tauto.
Qed.


Section Cleaning_invariant.
Context `{Library}.

End Cleaning_invariant.



(** Nor is the total positive in general: where the product of two
    [int64] columns wraps around, a sale of 2^32 items at 2^32 each has the
    total 0. *)
Lemma clean_total_wraps :
  ∃ c, @clean int64_products ex_wrap = Ok c ∧
       field (columns c) "Quantity" <$> rows c = [VInt (2 ^ 32)] ∧
       field (columns c) "UnitPrice" <$> rows c = [VInt (2 ^ 32)] ∧
       field (columns c) "TotalPrice" <$> rows c = [VInt 0].
Proof. eexists. split; [vm_compute; reflexivity|]. by vm_compute. Qed.

(** *** Groups *)

Lemma customers_elem k df : k ∈ customers df ↔ ∃ t, t ∈ df ∧ CustomerID t = k.
Proof.
  unfold customers. rewrite elem_of_list_to_set, list_elem_of_fmap. naive_solver.
Qed.

Lemma rows_of_elem k df t : t ∈ rows_of k df ↔ CustomerID t = k ∧ t ∈ df.
Proof. unfold rows_of. by rewrite list_elem_of_filter. Qed.

Lemma group_max df k m :
  is_max m (InvoiceDate <$> df) → k ∈ customers df →
  ∃ gm, max_time (InvoiceDate <$> rows_of k df) = Some gm ∧
        is_max gm (InvoiceDate <$> rows_of k df) ∧ gm ≤ m.
Proof.
  intros [_ Hub] (t & Ht & Hk)%customers_elem.
  destruct (max_time_is_Some (InvoiceDate <$> rows_of k df)) as [gm Hgm].
  { intros Hnil. apply fmap_nil_inv in Hnil.
    assert (t ∈ rows_of k df) as Hin by by apply rows_of_elem.
    rewrite Hnil in Hin. by apply elem_of_nil in Hin. }
  exists gm. split; [done|]. pose proof (max_time_is_max _ _ Hgm) as Hmax.
  split; [done|]. destruct Hmax as [Hin _].
  apply list_elem_of_fmap in Hin as (t' & -> & [_ Ht']%rows_of_elem).
  apply Hub, list_elem_of_fmap. eauto.
Qed.

Lemma filter_all {A} (P : A → Prop) `{!∀ x, Decision (P x)} (l : list A) :
  Forall P l → filter P l = l.
Proof.
  induction 1 as [|x l Hx _ IH]; [done|]. by rewrite filter_cons_True, IH.
Qed.

Lemma in_range_snapshot df m :
  in_range df → is_max m (InvoiceDate <$> df) → m + day ≤ timestamp_max.
Proof.
  intros [Hin _] [(u & -> & Hu)%list_elem_of_fmap _].
  by destruct (proj1 (Forall_forall _ _) Hin u Hu).
Qed.

Lemma in_range_group df m k gm :
  in_range df → is_max m (InvoiceDate <$> df) → k ∈ customers df →
  max_time (InvoiceDate <$> rows_of k df) = Some gm →
  m + day - gm ≤ timestamp_max.
Proof.
  intros [_ Hin] [(u & -> & Hu)%list_elem_of_fmap _] Hk Hgm.
  assert (Hg : (k, rows_of k df) ∈ groupby df) by by apply groupby_elem.
  apply (proj1 (Forall_forall _ _) Hin) in Hg. simpl in Hg. rewrite Hgm in Hg.
  apply Forall_cons_1 in Hg as [Hg _].
  by apply (proj1 (Forall_forall _ _) Hg).
Qed.

Section Aggregates.
Context `{Library}.

Lemma agg_row df k :
  k ∈ customers df →
  {| Customer := k;
     Recency := recency (snapshot_date df) (InvoiceDate <$> rows_of k df);
     Frequency := nunique (InvoiceNo <$> rows_of k df);
     Monetary := sum (TotalPrice <$> rows_of k df) |}
  ∈ agg (snapshot_date df) (groupby df).
Proof. intros Hk. by apply agg_elem. Qed.

Lemma group_recency df m k :
  is_max m (InvoiceDate <$> df) → snapshot_date df = Some (m + day) →
  k ∈ customers df →
  ∃ gm, max_time (InvoiceDate <$> rows_of k df) = Some gm ∧
        is_max gm (InvoiceDate <$> rows_of k df) ∧
        recency (snapshot_date df) (InvoiceDate <$> rows_of k df)
        = Some (days (m + day - gm)) ∧
        1 ≤ days (m + day - gm) ∧
        (gm = m →
         recency (snapshot_date df) (InvoiceDate <$> rows_of k df) = Some 1).
Proof.
  intros Hmax Hsnap Hk.
  destruct (group_max _ _ _ Hmax Hk) as (gm & Hgm & Hgmax & Hle).
  exists gm. rewrite Hsnap. unfold recency. simpl. rewrite Hgm. simpl.
  split_and!; [done|done|done|by apply days_lower|].
  intros ->. by rewrite days_same.
Qed.

(** C2. For a non-empty table whose dates are in range, the snapshot is the
    greatest invoice date plus one day, itself a timestamp. Every customer
    of the table has an aggregated row, and the row aggregated for a
    customer has as Recency the number of whole days from the greatest date
    of that customer's rows to the snapshot, which is at least 1, and
    exactly 1 for a customer who holds the most recent date. The rows
    [build_rfm] returns are the aggregated rows that pass the guards;
    each has a Recency that is present and at least 0, and not 0 for a
    customer holding the most recent transaction. *)
Theorem recency_from_snapshot (df : list txn) :
  df ≠ [] → in_range df →
  ∃ m, is_max m (InvoiceDate <$> df) ∧
       snapshot_date df = Some (m + day) ∧
       m + day ≤ timestamp_max ∧
       (∀ k, k ∈ customers df →
          ∃ r gm, r ∈ agg (snapshot_date df) (groupby df) ∧ Customer r = k ∧
                  is_max gm (InvoiceDate <$> rows_of k df) ∧
                  Recency r = Some (days (m + day - gm)) ∧
                  1 ≤ days (m + day - gm) ∧
                  m + day - gm ≤ timestamp_max ∧
                  (gm = m → Recency r = Some 1)) ∧
       (∀ r, r ∈ agg (snapshot_date df) (groupby df) →
          Customer r ∈ customers df ∧
          ∃ gm, is_max gm (InvoiceDate <$> rows_of (Customer r) df) ∧
                Recency r = Some (days (m + day - gm)) ∧
                1 ≤ days (m + day - gm) ∧
                (gm = m → Recency r = Some 1)) ∧
       (∀ r, r ∈ build_rfm df →
          r ∈ agg (snapshot_date df) (groupby df) ∧
          ∃ d, Recency r = Some d ∧ 0 ≤ d ∧
               ((∃ t, t ∈ df ∧ CustomerID t = Customer r ∧ InvoiceDate t = m) →
                d ≠ 0)) ∧
       (∀ r, r ∈ agg (snapshot_date df) (groupby df) → admissible r →
             r ∈ build_rfm df).
Proof.
  intros Hne Hin.
  destruct (max_time_is_Some (InvoiceDate <$> df)) as [m Hm].
  { by intros ?%fmap_nil_inv. }
  pose proof (max_time_is_max _ _ Hm) as Hmax.
  assert (Hsnap : snapshot_date df = Some (m + day)).
  { unfold snapshot_date. by rewrite Hm. }
  pose proof (in_range_snapshot _ _ Hin Hmax) as Hsmax.
  assert (Hagg : ∀ r, r ∈ agg (snapshot_date df) (groupby df) →
    Customer r ∈ customers df ∧
    ∃ gm, is_max gm (InvoiceDate <$> rows_of (Customer r) df) ∧
          Recency r = Some (days (m + day - gm)) ∧
          1 ≤ days (m + day - gm) ∧
          (gm = m → Recency r = Some 1)).
  { intros r [Hk Hr]%agg_elem. split; [done|].
    destruct (group_recency _ _ _ Hmax Hsnap Hk) as (gm & _ & ? & ? & ? & ?).
    exists gm. rewrite Hr. simpl. done. }
  exists m. split_and!; [done|done|done| |done| |].
  - intros k Hk.
    destruct (group_recency _ _ _ Hmax Hsnap Hk) as (gm & Hgm & Hgmax & ? & ? & ?).
    eexists _, gm. split; [by apply agg_row|]. simpl.
    split_and!; try done. by eapply in_range_group.
  - intros r [Hr _]%build_rfm_elem. split; [done|].
    destruct (Hagg r Hr) as (_ & gm & Hgmax & Hrec & Hpos & Hsame).
    exists (days (m + day - gm)). split_and!; [done|lia|].
    intros (t & Ht & Hk & Hd).
    assert (gm = m) as ->; [|rewrite days_same; lia].
    apply (is_max_unique _ _ _ Hgmax). split.
    + apply list_elem_of_fmap. exists t. split; [done|]. by apply rows_of_elem.
    + intros x (t' & -> & [_ Ht']%rows_of_elem)%list_elem_of_fmap.
      apply Hmax, list_elem_of_fmap. eauto.
  - intros r Hr Hadm. by apply build_rfm_elem.
Qed.

(** C3. For a non-empty table whose dates are in range, every customer of
    the table has an aggregated row, and the row aggregated for a customer
    has as Frequency the number of distinct invoice identifiers among that
    customer's rows, not the number of those rows. The rows [build_rfm]
    returns are the aggregated rows that pass the guards, so each has that
    Frequency. With invoices A, A, B on three rows the customer's Frequency
    in the returned table is 2. *)
Theorem frequency_counts_invoices (df : list txn) :
  df ≠ [] → in_range df →
  (∀ k, k ∈ customers df →
     ∃ r, r ∈ agg (snapshot_date df) (groupby df) ∧ Customer r = k ∧
          Frequency r = size (invoices (rows_of k df))) ∧
  (∀ r, r ∈ agg (snapshot_date df) (groupby df) →
     Customer r ∈ customers df ∧
     Frequency r = size (invoices (rows_of (Customer r) df))) ∧
  (∀ r, r ∈ build_rfm df →
     r ∈ agg (snapshot_date df) (groupby df) ∧
     Frequency r = size (invoices (rows_of (Customer r) df))) ∧
  (∀ r, r ∈ agg (snapshot_date df) (groupby df) → admissible r →
        r ∈ build_rfm df) ∧
  ((λ r, (Customer r, Frequency r)) <$> @build_rfm timestamps_only ex_AAB
   = [(1, 2%nat); (2, 1%nat)] ∧
   InvoiceNo <$> rows_of 1 ex_AAB = ["A"; "A"; "B"]).
Proof.
  intros _ _.
  assert (Hagg : ∀ r, r ∈ agg (snapshot_date df) (groupby df) →
            Customer r ∈ customers df ∧
            Frequency r = size (invoices (rows_of (Customer r) df))).
  { intros r [Hk ->]%agg_elem. split; [done|]. simpl. apply nunique_size. }
  split_and!; [|done| | |by vm_compute|by vm_compute].
  - intros k Hk. eexists. split; [by apply agg_row|]. simpl.
    split; [done|]. apply nunique_size.
  - intros r [Hr _]%build_rfm_elem. split; [done|]. by apply Hagg.
  - intros r Hr Hadm. by apply build_rfm_elem.
Qed.

End Aggregates.

(** C2, witness: the customer holding the latest date has Recency 1, the
    other one, nine days earlier, Recency 10. *)
Lemma recency_from_snapshot_witness :
  (λ r, (Customer r, Recency r)) <$> @build_rfm timestamps_only ex_AAB
  = [(1, Some 1); (2, Some 10)] ∧
  ∃ m, is_max m (InvoiceDate <$> ex_AAB) ∧
       snapshot_date ex_AAB = Some (m + day) ∧
       m + day ≤ timestamp_max ∧
       (∀ k, k ∈ customers ex_AAB →
          ∃ r gm, r ∈ @agg timestamps_only (snapshot_date ex_AAB) (groupby ex_AAB) ∧
                  Customer r = k ∧
                  is_max gm (InvoiceDate <$> rows_of k ex_AAB) ∧
                  Recency r = Some (days (m + day - gm)) ∧
                  1 ≤ days (m + day - gm) ∧
                  m + day - gm ≤ timestamp_max ∧
                  (gm = m → Recency r = Some 1)) ∧
       (∀ r, r ∈ @agg timestamps_only (snapshot_date ex_AAB) (groupby ex_AAB) →
          Customer r ∈ customers ex_AAB ∧
          ∃ gm, is_max gm (InvoiceDate <$> rows_of (Customer r) ex_AAB) ∧
                Recency r = Some (days (m + day - gm)) ∧
                1 ≤ days (m + day - gm) ∧
                (gm = m → Recency r = Some 1)) ∧
       (∀ r, r ∈ @build_rfm timestamps_only ex_AAB →
          r ∈ @agg timestamps_only (snapshot_date ex_AAB) (groupby ex_AAB) ∧
          ∃ d, Recency r = Some d ∧ 0 ≤ d ∧
               ((∃ t, t ∈ ex_AAB ∧ CustomerID t = Customer r ∧ InvoiceDate t = m) →
                d ≠ 0)) ∧
       (∀ r, r ∈ @agg timestamps_only (snapshot_date ex_AAB) (groupby ex_AAB) →
             admissible r → r ∈ @build_rfm timestamps_only ex_AAB).
Proof.
  split; [by vm_compute|].
  apply (@recency_from_snapshot timestamps_only).
  - discriminate.
  - apply (bool_decide_unpack _). by vm_compute.
Defined.

(** C3, witness: invoices A, A, B of customer 1 and invoice D of customer 2. *)
Lemma frequency_counts_invoices_witness :
  (∀ k, k ∈ customers ex_AAB →
     ∃ r, r ∈ @agg timestamps_only (snapshot_date ex_AAB) (groupby ex_AAB) ∧
          Customer r = k ∧
          Frequency r = size (invoices (rows_of k ex_AAB))) ∧
  (∀ r, r ∈ @agg timestamps_only (snapshot_date ex_AAB) (groupby ex_AAB) →
     Customer r ∈ customers ex_AAB ∧
     Frequency r = size (invoices (rows_of (Customer r) ex_AAB))) ∧
  (∀ r, r ∈ @build_rfm timestamps_only ex_AAB →
     r ∈ @agg timestamps_only (snapshot_date ex_AAB) (groupby ex_AAB) ∧
     Frequency r = size (invoices (rows_of (Customer r) ex_AAB))) ∧
  (∀ r, r ∈ @agg timestamps_only (snapshot_date ex_AAB) (groupby ex_AAB) →
        admissible r → r ∈ @build_rfm timestamps_only ex_AAB) ∧
  ((λ r, (Customer r, Frequency r)) <$> @build_rfm timestamps_only ex_AAB
   = [(1, 2%nat); (2, 1%nat)] ∧
   InvoiceNo <$> rows_of 1 ex_AAB = ["A"; "A"; "B"]).
Proof.
  apply (@frequency_counts_invoices timestamps_only).
  - discriminate.
  - apply (bool_decide_unpack _). by vm_compute.
Defined.


Lemma missing_nonempty (cols : list string) :
  required_cols ∖ list_to_set cols ≠ ∅ ↔ ∃ c, c ∈ required_cols ∧ c ∉ cols.
Proof.
  split.
  - intros [c Hc]%set_choose_L. exists c.
    apply elem_of_difference in Hc as [Hc Hn]. split; [done|].
    by rewrite elem_of_list_to_set in Hn.
  - intros (c & Hc & Hn) He.
    assert (c ∈ required_cols ∖ (list_to_set cols : gset string)) as Hin.
    { apply elem_of_difference. split; [done|]. by rewrite elem_of_list_to_set. }
    rewrite He in Hin. by apply not_elem_of_empty in Hin.
Qed.

Lemma required_cols_elem c :
  c ∈ required_cols ↔
  c = "InvoiceNo" ∨ c = "InvoiceDate" ∨ c = "CustomerID" ∨ c = "Quantity"
  ∨ c = "UnitPrice".
Proof. unfold required_cols. set_solver. Qed.

Lemma length_remove_dups {A} `{EqDecision A} (l : list A) :
  (length (remove_dups l) ≤ length l)%nat.
Proof. induction l as [|x l IH]; simpl; [done|]. case_decide; simpl; lia. Qed.

Lemma lowercase_not_cancelled s :
  String.prefix "c" s = true → String.prefix "C" s = false.
Proof.
  destruct s as [|a s]; [done|]. cbn [String.prefix].
  destruct (Ascii.ascii_dec _ a) as [<-|]; [|done]. intros _.
  by destruct (Ascii.ascii_dec _ _).
Qed.

Section Cleaning.
Context `{Library}.

Lemma clean_value_schema_error df m f :
  clean_value df = Raise (SchemaError m f) →
  required_cols ∖ list_to_set (canonical (columns df)) ≠ ∅.
Proof.
  unfold clean_value. cbv zeta. destruct (decide _) as [Hm|]; [done|].
  intros Hc. exfalso.
  repeat (rewrite need_bind in Hc;
          match type of Hc with
          | match ?o with Some _ => _ | None => _ end = _ =>
              destruct o; [|discriminate Hc]
          end).
  discriminate Hc.
Qed.

Lemma run_clean_missing df :
  required_cols ∖ list_to_set (canonical (columns df)) ≠ ∅ →
  run_clean df
  = ([Frame (strip <$> columns df) (rows df);
      Frame (canonical (columns df)) (rows df)],
     Raise (SchemaError (required_cols ∖ list_to_set (canonical (columns df)))
                        (canonical (columns df)))).
Proof.
  intros Hm. destruct df as [cols rws].
  unfold run_clean, clean_transactions, canonical in *.
  cbv beta iota delta [columns rows] in *.
  do 5 (heap_step; cbv beta iota delta [columns rows]).
  by rewrite decide_True.
Qed.

(** C5. [clean_transactions] raises the schema error exactly when one of
    the five required labels is absent from the labels once stripped and
    renamed. It then stops before any row is looked at: the heap holds the
    caller's frame and its renamed copy and nothing else, whatever the
    rows are; and the error carries the set of missing required labels and
    the list of labels found. *)
Theorem schema_error_iff df :
  ((∃ m f, clean df = Raise (SchemaError m f)) ↔
   ∃ c, c ∈ required_cols ∧ c ∉ canonical (columns df)) ∧
  ((∃ c, c ∈ required_cols ∧ c ∉ canonical (columns df)) →
   run_clean df
   = ([Frame (strip <$> columns df) (rows df);
       Frame (canonical (columns df)) (rows df)],
      Raise (SchemaError (required_cols ∖ list_to_set (canonical (columns df)))
                         (canonical (columns df)))) ∧
   ∀ c, c ∈ required_cols ∖ list_to_set (canonical (columns df)) ↔
        c ∈ required_cols ∧ c ∉ canonical (columns df)) ∧
  (∀ c, c ∈ required_cols ↔
        c = "InvoiceNo" ∨ c = "InvoiceDate" ∨ c = "CustomerID"
        ∨ c = "Quantity" ∨ c = "UnitPrice").
Proof.
  split_and!.
  - rewrite <-missing_nonempty. split.
    + intros (m & f & Hc). rewrite (proj1 (clean_heap_free df)) in Hc.
      by eapply clean_value_schema_error.
    + intros Hm. unfold clean. rewrite (run_clean_missing _ Hm). eauto.
  - intros Hm%missing_nonempty. split; [by apply run_clean_missing|].
    intros c. by rewrite elem_of_difference, elem_of_list_to_set.
  - apply required_cols_elem.
Qed.

Lemma canonical_same_field cols1 cols2 :
  Forall2 same_field cols1 cols2 → canonical cols1 = canonical cols2.
Proof.
  rewrite !canonical_canon. induction 1 as [|a b l1 l2 Hab _ IH]; [done|].
  rewrite !fmap_cons. by rewrite (same_field_canon _ _ Hab), IH.
Qed.

(** C7. Two frames with the same rows whose labels, position by position,
    name the same field (equal up to surrounding whitespace, or the two
    spellings of one field) make [clean_transactions] return the same
    thing: the same cleaned frame, or the same exception. *)
Theorem synonyms_clean_alike df1 df2 :
  Forall2 same_field (columns df1) (columns df2) →
  rows df1 = rows df2 →
  clean df1 = clean df2.
Proof.
  intros Hcols%canonical_same_field Hrows.
  rewrite (proj1 (clean_heap_free df1)), (proj1 (clean_heap_free df2)).
  unfold clean_value. by rewrite Hcols, Hrows.
Qed.

(** C8. The cleaned frame has at most as many rows as the raw frame, it
    reads as one record per row, and the table [build_rfm] returns has at
    most as many rows as the cleaned table has distinct customers, which
    are at most as many as its rows. *)
Theorem rows_never_added df c ts :
  clean df = Ok c → transactions c = Some ts →
  (length (rows c) ≤ length (rows df))%nat ∧
  length ts = length (rows c) ∧
  (length (build_rfm ts) ≤ size (customers ts))%nat ∧
  (size (customers ts) ≤ length ts)%nat.
Proof.
  intros Hc Hts. rewrite (proj1 (clean_heap_free df)) in Hc.
  apply clean_value_rows in Hc as (_ & _ & Hrows & _).
  split_and!.
  - rewrite Hrows. apply length_clean_rows.
  - symmetry. by eapply length_mapM.
  - unfold build_rfm. cbv zeta.
    etrans; [apply length_filter|]. etrans; [apply length_filter|].
    unfold agg. by rewrite !length_fmap, length_groupby.
  - rewrite <-length_groupby. unfold groupby.
    rewrite length_fmap, merge_sort_Permutation.
    etrans; [apply length_remove_dups|]. by rewrite length_fmap.
Qed.

(** C9 (amended). [clean_transactions] leaves the rows and values of the
    caller's frame as they were and replaces its labels by their stripped
    forms, whether it returns or raises; the frame is unchanged exactly
    when no label has surrounding whitespace. *)
Theorem input_only_relabelled df :
  input_after df = Frame (strip <$> columns df) (rows df) ∧
  rows (input_after df) = rows df ∧
  (input_after df = df ↔ Forall (λ c, strip c = c) (columns df)).
Proof.
  destruct (clean_heap_free df) as [_ ->]. split_and!; [done|done|].
  destruct df as [cols rws]. simpl. split.
  - intros [= Hc]. apply Forall_forall. intros c [i Hi]%list_elem_of_lookup.
    apply (f_equal (.!! i)) in Hc. rewrite list_lookup_fmap, Hi in Hc.
    by injection Hc.
  - intros Hall. f_equal. rewrite <-(list_fmap_id cols) at 2.
    apply list_fmap_ext. intros i c Hi. apply (proj1 (Forall_forall _ _) Hall).
    by eapply list_elem_of_lookup_2.
Qed.

(** C10. A row that has a customer, a parsed date and a positive quantity
    and unit price is kept exactly when the text of its invoice identifier
    does not start with the uppercase [C]; in particular it is kept when
    that text starts with the lowercase [c]. *)
Theorem cancellation_is_case_sensitive df c ts i r t s :
  wf_frame df → clean df = Ok c → transactions c = Some ts →
  keep_customers (canonical (columns df)) (rows df) !! i = Some r →
  to_datetime (field (canonical (columns df)) "InvoiceDate"
                 <$> keep_customers (canonical (columns df)) (rows df)) i
    = Some t →
  astype_str (field (canonical (columns df)) "InvoiceNo" r) = VStr s →
  positive (field (canonical (columns df)) "Quantity" r) = true →
  positive (field (canonical (columns df)) "UnitPrice" r) = true →
  (String.prefix "C" s = false ↔
   ∃ tx, tx ∈ ts ∧ record_of (canonical (columns df)) r t tx ∧ InvoiceNo tx = s) ∧
  (String.prefix "c" s = true →
   ∃ tx, tx ∈ ts ∧ record_of (canonical (columns df)) r t tx ∧ InvoiceNo tx = s).
Proof.
  intros Hwf Hc Hts Hi Ht Hs HQ HP. set (cols := canonical (columns df)) in *.
  destruct (clean_transactions_rows df c Hwf Hc)
    as (Hreq & _ & ts' & Hts' & _ & Hel).
  rewrite Hts in Hts'. injection Hts' as <-. fold cols in Hel, Hreq.
  assert (Hwf' : Forall (λ r, length r = length cols) (rows df)).
  { unfold cols. by setoid_rewrite length_canonical. }
  assert (Hkeep : String.prefix "C" s = false →
    ∃ tx, tx ∈ ts ∧ record_of cols r t tx ∧ InvoiceNo tx = s).
  { intros Hpre.
    assert (Hp : passes cols (rows df) i r t).
    { repeat split; try done. by rewrite Hs. }
    assert (Hcleaned : cleaned_row cols t r ∈ rows c).
    { rewrite (proj1 (clean_heap_free df)) in Hc.
      apply clean_value_rows in Hc as (_ & _ & -> & _).
      apply clean_rows_elem; eauto. }
    apply list_elem_of_lookup in Hcleaned as [j Hj].
    apply mapM_Some in Hts.
    destruct (Forall2_lookup_l _ _ _ _ _ Hts Hj) as (tx & Hj' & Hrd).
    apply list_elem_of_lookup_2 in Hj'.
    destruct (proj1 (Hel tx) Hj') as (i' & r' & t' & Hp' & Hrec').
    assert (Hcast : is_Some (astype_int (field cols "CustomerID" r))).
    { rewrite (proj1 (clean_heap_free df)) in Hc.
      apply clean_value_rows in Hc as (_ & _ & _ & Hcast).
      pose proof (passes_length _ _ Hwf' _ _ _ Hp) as Hlen.
      pose proof (index_InvoiceNo _ Hreq) as HN.
      pose proof (index_InvoiceDate _ Hreq) as HD.
      assert (Hin : sale_row cols t r ∈ sales_rows cols (rows df))
        by (apply sales_rows_elem; eauto).
      apply (proj1 (Forall_forall _ _) Hcast) in Hin.
      unfold sale_row in Hin. by fields_in Hin. }
    destruct (read_cleaned_row _ _ Hreq Hwf' _ _ _ Hp Hcast) as (tx'' & Htx & Hrec).
    assert (columns c = add_label "TotalPrice" cols) as Hcols.
    { rewrite (proj1 (clean_heap_free df)) in Hc.
      by apply clean_value_rows in Hc as (_ & -> & _ & _). }
    rewrite Hcols, Htx in Hrd. injection Hrd as <-.
    exists tx''. split_and!; [done|done|].
    destruct Hrec as (Hs' & _). rewrite Hs in Hs'. by injection Hs'. }
  split; [split; [done|]|].
  - intros (tx & Htx & Hrec & Hno).
    apply Hel in Htx as (i' & r' & t' & Hp' & Hrec').
    destruct Hp' as (_ & _ & Hsale & _). destruct Hrec' as (Hs' & _).
    rewrite Hs' in Hsale. by rewrite <-Hno.
  - intros Hlower. by apply Hkeep, lowercase_not_cancelled.
Qed.
End Cleaning.

(** C6. The rows [build_rfm] returns are exactly the aggregated rows whose
    Recency is present and at least 0, whose Frequency is above 0 and whose
    Monetary is a finite number above 0; the others are dropped and nothing
    is raised. A customer with an infinite total is aggregated and then
    dropped. *)
Theorem rfm_rows_admissible `{Library} (df : list txn) :
  (∀ r, r ∈ build_rfm df → admissible r) ∧
  (∀ r, r ∈ build_rfm df ↔
        r ∈ agg (snapshot_date df) (groupby df) ∧ admissible r) ∧
  (Customer <$> @agg timestamps_only (snapshot_date ex_infinite) (groupby ex_infinite)
   = [1; 2] ∧
   Customer <$> @build_rfm timestamps_only ex_infinite = [2]).
Proof.
  split_and!; [|apply build_rfm_elem|by vm_compute|by vm_compute].
  intros r Hr. by apply build_rfm_elem in Hr as [_ ?].
Qed.

(** C5, the error on a frame with no quantity column. *)
Lemma schema_error_example :
  ∃ m f, @clean timestamps_only ex_no_quantity = Raise (SchemaError m f) ∧
         (∀ c, c ∈ m ↔ c = "Quantity") ∧
         f = ["InvoiceNo"; "InvoiceDate"; "CustomerID"; "UnitPrice"].
Proof.
  eexists _, _. split; [vm_compute; reflexivity|]. split; [|done].
  intros c. split.
  - intros Hc. apply elem_of_elements in Hc. vm_compute in Hc.
    by apply elem_of_cons in Hc as [->|?%elem_of_nil].
  - intros ->. apply elem_of_elements. vm_compute. by left.
Qed.

(** C7, witness: the alternate spellings against the canonical ones. *)
Lemma synonyms_clean_alike_witness :
  @clean timestamps_only ex_raw = @clean timestamps_only ex_canonical.
Proof.
  apply synonyms_clean_alike; [|reflexivity].
  repeat constructor;
    first [ by left; vm_compute | by right; left; vm_compute; repeat constructor ].
Defined.

(** C8, witness: three raw rows, two cleaned rows, one customer. *)
Lemma rows_never_added_witness :
  (length (rows (@cleaned timestamps_only ex_raw)) ≤ length (rows ex_raw))%nat ∧
  length (@cleaned_txns timestamps_only ex_raw)
  = length (rows (@cleaned timestamps_only ex_raw)) ∧
  (length (@build_rfm timestamps_only (@cleaned_txns timestamps_only ex_raw))
   ≤ size (customers (@cleaned_txns timestamps_only ex_raw)))%nat ∧
  (size (customers (@cleaned_txns timestamps_only ex_raw))
   ≤ length (@cleaned_txns timestamps_only ex_raw))%nat.
Proof.
  apply (@rows_never_added timestamps_only ex_raw).
  - vm_compute. reflexivity.
  - vm_compute. reflexivity.
Defined.

(** C9 as stated fails: the labels of the caller's frame are stripped in
    place. *)
Lemma clean_relabels_input :
  columns (@input_after timestamps_only ex_raw) ≠ columns ex_raw ∧
  @input_after timestamps_only ex_raw ≠ ex_raw.
Proof.
  assert (columns (@input_after timestamps_only ex_raw) ≠ columns ex_raw) as Hne
    by (vm_compute; discriminate).
  split; [done|]. intros Heq. apply Hne. by rewrite Heq.
Qed.

(** C10, witness: an invoice that starts with a lowercase [c] is kept. *)
Lemma cancellation_is_case_sensitive_witness :
  (String.prefix "C" "c536366" = false ↔
   ∃ tx, tx ∈ @cleaned_txns timestamps_only ex_lowercase ∧
         @record_of timestamps_only (canonical (columns ex_lowercase))
           [VStr "c536366"; VTime (10 * day); VInt 17850; VInt 1; VInt 2]
           (10 * day) tx ∧
         InvoiceNo tx = "c536366") ∧
  (String.prefix "c" "c536366" = true →
   ∃ tx, tx ∈ @cleaned_txns timestamps_only ex_lowercase ∧
         @record_of timestamps_only (canonical (columns ex_lowercase))
           [VStr "c536366"; VTime (10 * day); VInt 17850; VInt 1; VInt 2]
           (10 * day) tx ∧
         InvoiceNo tx = "c536366").
Proof.
  apply (@cancellation_is_case_sensitive timestamps_only ex_lowercase
           (@cleaned timestamps_only ex_lowercase) _ O).
  - repeat constructor.
  - vm_compute. reflexivity.
  - vm_compute. reflexivity.
  - vm_compute. reflexivity.
  - vm_compute. reflexivity.
  - vm_compute. reflexivity.
  - vm_compute. reflexivity.
  - vm_compute. reflexivity.
Defined.

(** ** How [clean_transactions] ends *)

Lemma column_present name cols rws :
  is_Some (index_of name cols) →
  column name (Frame cols rws) = Some (field cols name <$> rws).
Proof. unfold column. simpl. by intros [i ->]. Qed.

Lemma mapM_all {A B} (h : A → option B) (d : B) (l : list A) :
  Forall (λ x, is_Some (h x)) l →
  mapM h l = Some ((λ x, default d (h x)) <$> l).
Proof.
  intros Hl. destruct (mapM_is_Some_2 h l Hl) as [ys Hys].
  rewrite Hys. by apply (mapM_default _ d) in Hys as [-> _].
Qed.

Lemma mapM_not_all {A B} (h : A → option B) (l : list A) :
  ¬ Forall (λ x, is_Some (h x)) l → mapM h l = None.
Proof.
  intros Hl. destruct (mapM h l) as [ys|] eqn:Hys; [|done].
  destruct Hl. apply (mapM_is_Some_1 h). by eexists.
Qed.

Lemma index_Quantity cols : has_required cols → is_Some (index_of "Quantity" cols).
Proof. intros. apply has_required_index; [done|]. unfold required_cols. set_solver. Qed.
Lemma index_UnitPrice cols : has_required cols → is_Some (index_of "UnitPrice" cols).
Proof. intros. apply has_required_index; [done|]. unfold required_cols. set_solver. Qed.

(** *** The stages keep rows as wide as the labels *)

Section Widths.
Context `{Library} (cols : list string).
Hypothesis Hreq : has_required cols.

Lemma wide_filter (P : list value → Prop) `{!∀ r, Decision (P r)} rws :
  wide cols rws → wide cols (filter P rws).
Proof.
  unfold wide. rewrite !Forall_forall. intros Hw r [_ Hr]%list_elem_of_filter. auto.
Qed.

Lemma wide_set_field name (g : list value → value) rws :
  is_Some (index_of name cols) →
  wide cols rws → wide cols ((λ r, set_field cols name (g r) r) <$> rws).
Proof.
  unfold wide. intros Hi Hw. apply Forall_fmap. eapply Forall_impl; [done|].
  intros r Hr. simpl. by rewrite length_set_field.
Qed.

Lemma wide_parse_dates rws : wide cols rws → wide cols (parse_dates cols rws).
Proof.
  unfold wide, parse_dates. rewrite !Forall_forall.
  intros Hw r (i & r0 & -> & Hi)%elem_of_lookup_imap.
  rewrite length_set_field by by apply index_InvoiceDate.
  by eapply Hw, list_elem_of_lookup_2.
Qed.

Lemma wide_compared_rows rws : wide cols rws → wide cols (compared_rows cols rws).
Proof.
  intros Hw. unfold compared_rows, keep_sales, text_invoices, keep_dated,
    keep_customers.
  apply wide_filter, wide_set_field; [by apply index_InvoiceNo|].
  by apply wide_filter, wide_parse_dates, wide_filter.
Qed.

Lemma wide_sales_rows rws : wide cols rws → wide cols (sales_rows cols rws).
Proof. intros Hw. by apply wide_filter, wide_compared_rows. Qed.
End Widths.

Section Outcome.
Context `{Library}.

Lemma text_invoices_text cols rws :
  has_required cols → wide cols rws →
  Forall (λ r, is_Some (str_startswith "C" (field cols "InvoiceNo" r)))
         (text_invoices cols rws).
Proof.
  intros Hreq Hw. unfold text_invoices. apply Forall_fmap.
  eapply Forall_impl; [exact Hw|]. intros r Hr. simpl.
  rewrite field_set_field by (done || by apply index_InvoiceNo).
  by destruct (field cols "InvoiceNo" r).
Qed.

Lemma int_customers_products cols rws :
  has_required cols → wide cols rws →
  Forall (λ r, positive (field cols "Quantity" r)
               && positive (field cols "UnitPrice" r) = true) rws →
  Forall (λ r, is_Some (mul_value (field cols "Quantity" r)
                                  (field cols "UnitPrice" r)))
         (int_customers cols rws).
Proof.
  intros Hreq Hw Hpos. unfold int_customers. apply Forall_fmap.
  apply Forall_forall. intros r Hr. simpl.
  pose proof (proj1 (Forall_forall _ _) Hw r Hr) as Hlen.
  apply (proj1 (Forall_forall _ _) Hpos) in Hr.
  apply andb_true_iff in Hr as [(q & Hq & _)%positive_number (p & Hp & _)%positive_number].
  rewrite !(field_set_field_ne _ _ Hlen "CustomerID") by done.
  destruct (mul_value_number _ _ _ _ Hq Hp) as (v & x & -> & _). by eexists.
Qed.

Lemma clean_value_outcome df :
  wf_frame df → has_required (canonical (columns df)) →
  clean_value df = clean_outcome (canonical (columns df)) (rows df).
Proof.
  destruct df as [cols0 rws]. unfold wf_frame. simpl columns. simpl rows.
  rewrite <-(length_canonical cols0). set (cols := canonical cols0).
  intros Hw Hreq. fold (wide cols rws) in Hw.
  pose proof (index_InvoiceNo _ Hreq) as HN.
  pose proof (index_InvoiceDate _ Hreq) as HD.
  pose proof (index_CustomerID _ Hreq) as HC.
  pose proof (index_Quantity _ Hreq) as HQ.
  pose proof (index_UnitPrice _ Hreq) as HP.
  unfold clean_value, clean_outcome. cbv zeta. simpl columns. simpl rows. fold cols.
  rewrite decide_False by (intros Hm; apply Hm, missing_empty, Hreq).
  rewrite need_bind, (column_present _ _ _ HC), select_field.
  change (filter _ rws) with (keep_customers cols rws).
  set (r1 := keep_customers cols rws).
  rewrite need_bind, (column_present _ _ _ HD), assign_dates, (add_label_present _ _ HD).
  set (r2 := parse_dates cols r1).
  rewrite need_bind, (column_present _ _ _ HD), select_field.
  change (filter _ r2) with (keep_dated cols r2).
  set (r3 := keep_dated cols r2).
  rewrite need_bind, (column_present _ _ _ HN).
  rewrite <-list_fmap_compose, assign_fmap, (add_label_present _ _ HN).
  change (_ <$> r3) with (text_invoices cols r3).
  set (r4 := text_invoices cols r3).
  assert (Hw3 : wide cols r3).
  { by apply wide_filter, wide_parse_dates, wide_filter. }
  rewrite need_bind, (column_present _ _ _ HN), need_bind.
  rewrite (mapM_all _ false) by (apply Forall_fmap, text_invoices_text; done).
  rewrite <-(list_fmap_compose _ negb), select_field.
  change (filter _ r4) with (keep_sales cols r4).
  change (keep_sales cols r4) with (compared_rows cols rws).
  set (r5 := compared_rows cols rws).
  assert (Hw5 : wide cols r5) by by apply wide_compared_rows.
  rewrite need_bind, (column_present _ _ _ HQ), need_bind.
  destruct (decide (Forall (comparable cols) r5)) as [Hcmp|Hcmp]; last first.
  { destruct (decide (Forall (λ r, is_Some (gt_zero (field cols "Quantity" r))) r5))
      as [HcQ|HcQ].
    - rewrite (mapM_all _ false) by by apply Forall_fmap.
      rewrite need_bind, (column_present _ _ _ HP), need_bind.
      rewrite mapM_not_all; [done|]. rewrite Forall_fmap. intros HcP.
      apply Hcmp, Forall_forall. intros r Hr. split.
      + apply (proj1 (Forall_forall _ _) HcQ _ Hr).
      + apply (proj1 (Forall_forall _ _) HcP _ Hr).
    - rewrite mapM_not_all; [done|]. by rewrite Forall_fmap. }
  rewrite (mapM_all _ false)
    by (apply Forall_fmap; eapply Forall_impl; [exact Hcmp|]; by intros r [? _]).
  rewrite need_bind, (column_present _ _ _ HP), need_bind.
  rewrite (mapM_all _ false)
    by (apply Forall_fmap; eapply Forall_impl; [exact Hcmp|]; by intros r [_ ?]).
  rewrite <-!list_fmap_compose, zip_with_fmap_l, zip_with_fmap_r, zip_with_diag.
  unfold select. simpl columns. simpl rows. rewrite pick_fmap.
  change (filter _ r5) with (sales_rows cols rws).
  set (r6 := sales_rows cols rws).
  assert (Hw6 : wide cols r6) by by apply wide_sales_rows.
  rewrite need_bind, (column_present _ _ _ HC), need_bind.
  destruct (decide (Forall (castable cols) r6)) as [Hcast|Hcast]; last first.
  { rewrite mapM_not_all; [done|]. by rewrite Forall_fmap. }
  rewrite (mapM_all _ 0) by by apply Forall_fmap.
  rewrite <-!list_fmap_compose, assign_fmap, (add_label_present _ _ HC).
  change (_ <$> r6) with (int_customers cols r6).
  set (r7 := int_customers cols r6).
  rewrite need_bind, (column_present _ _ _ HQ), need_bind, (column_present _ _ _ HP).
  rewrite zip_with_fmap_l, zip_with_fmap_r, zip_with_diag, need_bind.
  rewrite (mapM_all _ VNone).
  - by rewrite <-!list_fmap_compose, assign_fmap.
  - apply Forall_fmap. apply int_customers_products; [done|done|].
    apply Forall_forall. by intros r [? _]%list_elem_of_filter.
Qed.
End Outcome.

Section Reaching.
Context `{Library} (cols : list string) (rws : list (list value)).
Hypothesis Hreq : has_required cols.
Hypothesis Hwf : wide cols rws.

Lemma reaches_length i r t : reaches cols rws i r t → length r = length cols.
Proof.
  intros [Hi _]. apply list_elem_of_lookup_2 in Hi.
  apply list_elem_of_filter in Hi as [_ Hi].
  by eapply (proj1 (Forall_forall _ _) Hwf).
Qed.

Lemma compared_rows_elem r' :
  r' ∈ compared_rows cols rws ↔
  ∃ i r t, reaches cols rws i r t ∧ r' = sale_row cols t r.
Proof.
  pose proof (index_InvoiceNo _ Hreq) as HN.
  pose proof (index_InvoiceDate _ Hreq) as HD.
  unfold compared_rows, keep_sales, text_invoices, keep_dated, parse_dates.
  split.
  - intros [Hsale H6]%list_elem_of_filter.
    apply list_elem_of_fmap in H6 as (r3 & -> & H3).
    apply list_elem_of_filter in H3 as [Hd H3].
    apply elem_of_lookup_imap in H3 as (i & r & -> & Hi).
    assert (Hlen : length r = length cols).
    { apply list_elem_of_lookup_2 in Hi.
      apply list_elem_of_filter in Hi as [_ Hi].
      by eapply (proj1 (Forall_forall _ _) Hwf). }
    rewrite field_set_field in Hd by done.
    apply date_cell_notna in Hd as [t Ht].
    rewrite Ht in *. simpl date_cell in *.
    fields_in Hsale. apply negb_true_iff in Hsale.
    exists i, r, t. split; [done|]. unfold sale_row. by fields.
  - intros (i & r & t & Hp & ->).
    pose proof (reaches_length _ _ _ Hp) as Hlen.
    destruct Hp as (Hi & Ht & Hsale).
    pose proof (elem_of_lookup_imap_2
      (λ i r, set_field cols "InvoiceDate"
         (date_cell (to_datetime
            (field cols "InvoiceDate" <$> keep_customers cols rws) i)) r)
      _ r i Hi) as H2.
    cbv beta in H2. rewrite Ht in H2. simpl date_cell in H2.
    unfold sale_row.
    apply list_elem_of_filter. split; [fields; by rewrite Hsale|].
    apply list_elem_of_fmap. exists (set_field cols "InvoiceDate" (VTime t) r).
    split; [by fields|].
    apply list_elem_of_filter. split; [by fields|done].
Qed.

Lemma comparable_sale_row t r :
  length r = length cols →
  comparable cols (sale_row cols t r) ↔ comparable cols r.
Proof.
  pose proof (index_InvoiceNo _ Hreq) as HN.
  pose proof (index_InvoiceDate _ Hreq) as HD.
  intros Hlen. unfold comparable, sale_row. by fields.
Qed.



Lemma passes_reaches i r t :
  passes cols rws i r t ↔
  reaches cols rws i r t ∧
  positive (field cols "Quantity" r) = true ∧
  positive (field cols "UnitPrice" r) = true.
Proof. unfold passes, reaches. tauto. Qed.

(** Whether every compared row is comparable, read on the rows of the
    input. *)
Lemma all_comparable :
  Forall (comparable cols) (compared_rows cols rws) ↔
  ∀ i r t, reaches cols rws i r t → comparable cols r.
Proof.
  rewrite Forall_forall. split.
  - intros Hall i r t Hr. apply (comparable_sale_row t); [by eapply reaches_length|].
    apply Hall, compared_rows_elem. eauto.
  - intros Hall r' (i & r & t & Hr & ->)%compared_rows_elem.
    apply comparable_sale_row; [by eapply reaches_length|]. by eapply Hall.
Qed.

End Reaching.

Lemma wf_frame_wide df : wf_frame df → wide (canonical (columns df)) (rows df).
Proof. unfold wf_frame, wide. by setoid_rewrite length_canonical. Qed.

Lemma filter_filter_same {A} (P : A → Prop) `{!∀ x, Decision (P x)} (l : list A) :
  filter P (filter P l) = filter P l.
Proof. apply filter_all, Forall_forall. by intros x [? _]%list_elem_of_filter. Qed.

Section Outcomes.
Context `{Library}.

Lemma column_absent name cols rws :
  index_of name cols = None → column name (Frame cols rws) = None.
Proof. unfold column. simpl. by intros ->. Qed.

Lemma keep_customers_idem cols rws :
  keep_customers cols (keep_customers cols rws) = keep_customers cols rws.
Proof. unfold keep_customers. apply filter_filter_same. Qed.

Lemma clean_outcome_eq df :
  wf_frame df → has_required (canonical (columns df)) →
  clean df = clean_outcome (canonical (columns df)) (rows df).
Proof.
  intros Hwf Hreq. rewrite (proj1 (clean_heap_free df)).
  by apply clean_value_outcome.
Qed.

Lemma clean_missing df :
  ¬ has_required (canonical (columns df)) →
  clean df = Raise (SchemaError (required_cols ∖ list_to_set (canonical (columns df)))
                                (canonical (columns df))).
Proof.
  intros Hreq. unfold clean. rewrite run_clean_missing; [done|].
  intros Hm. by apply Hreq, missing_empty.
Qed.

(** X1. On a well-formed frame whose labels are distinct once normalised
    [clean_transactions] never raises a [KeyError]: it returns, or raises
    the schema error, a [TypeError] from a comparison, or the error of the
    integer cast. *)
Theorem clean_never_key_error df :
  wf_frame df → NoDup (canonical (columns df)) →
  (∀ name, clean df ≠ Raise (KeyError name)) ∧
  ((∃ c, clean df = Ok c) ∨ (∃ m f, clean df = Raise (SchemaError m f)) ∨
   clean df = Raise TypeError ∨ clean df = Raise CastError).
Proof.
  intros Hwf _.
  destruct (decide (has_required (canonical (columns df)))) as [Hreq|Hreq].
  - rewrite (clean_outcome_eq _ Hwf Hreq). unfold clean_outcome.
    repeat case_decide; split; try done; eauto 10.
  - rewrite (clean_missing _ Hreq). split; [done|]. eauto 10.
Qed.


(** X3. On a well-formed frame with the required labels, all distinct,
    whose quantity and unit price columns hold a number each (so that they
    are compared cell by cell), the call raises the [TypeError] of line 58
    exactly when a row that has a customer, a parsed date and is not a
    cancellation holds a quantity or unit price on which [> 0] is not
    defined; such a cell in a row dropped earlier is never compared. *)
Theorem type_error_iff df :
  wf_frame df → has_required (canonical (columns df)) → plain df →
  (clean df = Raise TypeError ↔
   ∃ i r t, reaches (canonical (columns df)) (rows df) i r t ∧
            ¬ comparable (canonical (columns df)) r).
Proof.
  intros Hwf Hreq _. rewrite (clean_outcome_eq _ Hwf Hreq).
  pose proof (wf_frame_wide _ Hwf) as Hw. set (cols := canonical (columns df)) in *.
  unfold clean_outcome. split.
  - repeat case_decide; try done. intros _.
    match goal with Hn : ¬ Forall _ _ |- _ =>
      apply not_Forall_Exists, Exists_exists in Hn as (r' & Hr' & Hbad); [|apply _] end.
    apply compared_rows_elem in Hr' as (i & r & t & Hr & ->); [|done..].
    exists i, r, t. split; [done|]. intros Hc. apply Hbad.
    apply comparable_sale_row; [done| |done]. by eapply reaches_length.
  - intros (i & r & t & Hr & Hn). rewrite decide_False; [done|].
    intros Hall. apply Hn. by eapply (proj1 (all_comparable _ _ Hreq Hw)).
Qed.


(** X6. Rows without a customer have no influence: the call on a frame and
    on the same frame without its rows whose customer is missing end alike
    (same frame returned, or same exception). *)
Theorem rows_without_customer_ignored df :
  clean df
  = clean (Frame (columns df)
                 (keep_customers (canonical (columns df)) (rows df))).
Proof.
  rewrite !(proj1 (clean_heap_free _)). destruct df as [cols0 rws].
  unfold clean_value. cbv zeta. simpl columns. simpl rows.
  set (cols := canonical cols0). case_decide; [done|].
  rewrite !need_bind.
  destruct (index_of "CustomerID" cols) as [i|] eqn:Hi.
  - rewrite (column_present "CustomerID" cols rws) by (rewrite Hi; eauto).
    rewrite (column_present "CustomerID" cols (keep_customers cols rws))
      by (rewrite Hi; eauto).
    cbv beta iota. rewrite !select_field.
    change (filter _ (keep_customers cols rws))
      with (keep_customers cols (keep_customers cols rws)).
    change (filter _ rws) with (keep_customers cols rws).
    by rewrite keep_customers_idem.
  - by rewrite !(column_absent "CustomerID" cols _ Hi).
Qed.
End Outcomes.

(** ** What [clean_transactions] leaves as it is *)

Lemma not_written n :
  n ∉ written_labels →
  n ≠ "InvoiceNo" ∧ n ≠ "InvoiceDate" ∧ n ≠ "CustomerID" ∧ n ≠ "TotalPrice".
Proof. unfold written_labels. set_solver. Qed.

Section Untouched.
Context `{Library} (cols : list string) (n : string).
Hypothesis Hreq : has_required cols.
Hypothesis Hn : n ∉ written_labels.

Lemma field_cleaned_row t r :
  length r = length cols →
  field (add_label "TotalPrice" cols) n (cleaned_row cols t r) = field cols n r.
Proof.
  intros Hlen. destruct (not_written _ Hn) as (HnN & HnD & HnC & HnT).
  pose proof (index_InvoiceNo _ Hreq) as HN.
  pose proof (index_InvoiceDate _ Hreq) as HD.
  pose proof (index_CustomerID _ Hreq) as HC.
  unfold cleaned_row, sale_row.
  rewrite field_add_label_ne by first [done | len]. by fields.
Qed.

Lemma field_fmap_set_field name (g : list value → value) rws :
  name ≠ n → wide cols rws →
  field cols n <$> ((λ r, set_field cols name (g r) r) <$> rws)
  = field cols n <$> rws.
Proof.
  intros Hne Hw. rewrite <-list_fmap_compose. apply list_fmap_ext.
  intros i r Hi. simpl. apply field_set_field_ne; [|done].
  by eapply (proj1 (Forall_forall _ _) Hw), list_elem_of_lookup_2.
Qed.

Lemma field_parse_dates rws :
  wide cols rws → field cols n <$> parse_dates cols rws = field cols n <$> rws.
Proof.
  intros Hw. destruct (not_written _ Hn) as (_ & HnD & _).
  apply list_eq. intros i. unfold parse_dates.
  rewrite !list_lookup_fmap, list_lookup_imap.
  destruct (rws !! i) as [r|] eqn:Hi; [|done]. simpl. f_equal.
  apply field_set_field_ne; [|done].
  by eapply (proj1 (Forall_forall _ _) Hw), list_elem_of_lookup_2.
Qed.

Lemma field_add_totals rws :
  wide cols rws →
  field (add_label "TotalPrice" cols) n <$> add_totals cols rws
  = field cols n <$> rws.
Proof.
  intros Hw. destruct (not_written _ Hn) as (_ & _ & _ & HnT).
  unfold add_totals. rewrite <-list_fmap_compose. apply list_fmap_ext.
  intros i r Hi. simpl. apply field_add_label_ne; [|done].
  by eapply (proj1 (Forall_forall _ _) Hw), list_elem_of_lookup_2.
Qed.

Lemma clean_rows_order rws :
  wide cols rws →
  field (add_label "TotalPrice" cols) n <$> clean_rows cols rws
    `sublist_of` field cols n <$> rws.
Proof.
  intros Hw. destruct (not_written _ Hn) as (HnN & HnD & HnC & HnT).
  pose proof (index_InvoiceNo _ Hreq) as HN.
  pose proof (index_CustomerID _ Hreq) as HC.
  unfold clean_rows.
  rewrite field_add_totals
    by (apply wide_set_field; [done|by apply wide_sales_rows]).
  unfold int_customers.
  rewrite field_fmap_set_field by (done || by apply wide_sales_rows).
  unfold sales_rows, keep_positive, keep_sales.
  etrans; [apply fmap_sublist, sublist_filter|].
  etrans; [apply fmap_sublist, sublist_filter|].
  unfold text_invoices.
  rewrite field_fmap_set_field
    by (done || by apply wide_filter, wide_parse_dates, wide_filter).
  unfold keep_dated. etrans; [apply fmap_sublist, sublist_filter|].
  rewrite field_parse_dates by by apply wide_filter.
  apply fmap_sublist, sublist_filter.
Qed.
End Untouched.

Section Passing_through.
Context `{Library}.

(** X7. The cleaned frame carries the normalised labels, followed by
    [TotalPrice] unless it is already among them, and only the columns
    [InvoiceNo], [InvoiceDate], [CustomerID] and [TotalPrice] are written:
    under any other label every cleaned row holds the cell of a row of the
    input. *)
Theorem other_columns_pass_through df c :
  wf_frame df → clean df = Ok c →
  columns c = add_label "TotalPrice" (canonical (columns df)) ∧
  Forall (λ r', ∃ r, r ∈ rows df ∧
                 ∀ n, n ∉ written_labels →
                      field (columns c) n r' = field (canonical (columns df)) n r)
         (rows c).
Proof.
  intros Hwf Hc. pose proof (wf_frame_wide _ Hwf) as Hw.
  rewrite (proj1 (clean_heap_free df)) in Hc.
  apply clean_value_rows in Hc as (Hreq & Hcols & Hrows & _).
  split; [done|]. rewrite Hrows, Hcols. apply Forall_forall.
  intros r' (i & r & t & Hp & ->)%clean_rows_elem; [|done..].
  destruct (passes_raw _ _ _ _ _ Hp) as [Hr _]. exists r. split; [done|].
  intros n Hn. apply field_cleaned_row; [done..|]. by eapply passes_length.
Qed.

(** X8. Cleaning keeps the rows in their order: under a label the call does
    not write, the column of the cleaned frame is a subsequence of the
    column of the input. *)
Theorem row_order_preserved df c n :
  wf_frame df → clean df = Ok c → n ∉ written_labels →
  field (columns c) n <$> rows c
    `sublist_of` field (canonical (columns df)) n <$> rows df.
Proof.
  intros Hwf Hc Hn. pose proof (wf_frame_wide _ Hwf) as Hw.
  rewrite (proj1 (clean_heap_free df)) in Hc.
  apply clean_value_rows in Hc as (Hreq & Hcols & Hrows & _).
  rewrite Hrows, Hcols. by apply clean_rows_order.
Qed.
End Passing_through.

(** ** Normalising labels twice *)

(** *** Stripping *)

Lemma string_app_cons a s1 s2 : String a s1 +:+ s2 = String a (s1 +:+ s2).
Proof. reflexivity. Qed.

Lemma string_app_nil_r s : s +:+ EmptyString = s.
Proof. induction s as [|a s IH]; [done|]. by rewrite string_app_cons, IH. Qed.

Lemma string_app_assoc s1 s2 s3 : (s1 +:+ s2) +:+ s3 = s1 +:+ (s2 +:+ s3).
Proof. induction s1 as [|a s1 IH]; [done|]. by rewrite !string_app_cons, IH. Qed.

Lemma string_length_app s1 s2 :
  String.length (s1 +:+ s2) = (String.length s1 + String.length s2)%nat.
Proof. induction s1 as [|a s1 IH]; [done|]. rewrite string_app_cons. simpl. by rewrite IH. Qed.

Lemma string_rev_app_spec s1 s2 : String.rev_app s1 s2 = String.rev s1 +:+ s2.
Proof.
  revert s2. induction s1 as [|a s1 IH]; intros s2; [done|].
  unfold String.rev. simpl. rewrite !IH, string_app_assoc. done.
Qed.

Lemma string_rev_cons a s : String.rev (String a s) = String.rev s +:+ String a EmptyString.
Proof. unfold String.rev at 1. simpl. apply string_rev_app_spec. Qed.

Lemma string_rev_app s1 s2 : String.rev (s1 +:+ s2) = String.rev s2 +:+ String.rev s1.
Proof.
  induction s1 as [|a s1 IH]; [by rewrite string_app_nil_r|].
  by rewrite string_app_cons, !string_rev_cons, IH, string_app_assoc.
Qed.

Lemma string_rev_involutive s : String.rev (String.rev s) = s.
Proof.
  induction s as [|a s IH]; [done|].
  by rewrite string_rev_cons, string_rev_app, IH.
Qed.

Lemma lstrip_idem s : lstrip (lstrip s) = lstrip s.
Proof.
  induction s as [|a s IH]; [done|]. simpl.
  destruct (is_space a) eqn:Ha; [done|]. simpl. by rewrite Ha.
Qed.

Lemma lstrip_suffix s : ∃ w, s = w +:+ lstrip s.
Proof.
  induction s as [|a s [w IH]]; [by exists EmptyString|]. simpl.
  destruct (is_space a); [|by exists EmptyString].
  exists (String a w). by rewrite string_app_cons, <-IH.
Qed.

Lemma rstrip_prefix s : ∃ w, s = rstrip s +:+ w.
Proof.
  unfold rstrip. destruct (lstrip_suffix (String.rev s)) as [w Hw].
  exists (String.rev w).
  by rewrite <-string_rev_app, <-Hw, string_rev_involutive.
Qed.

Lemma rstrip_fixed s : lstrip (String.rev s) = String.rev s → rstrip s = s.
Proof. unfold rstrip. intros ->. apply string_rev_involutive. Qed.

Lemma lstrip_rstrip s : lstrip s = s → lstrip (rstrip s) = rstrip s.
Proof.
  intros Hs. destruct (rstrip_prefix s) as [w Hw].
  destruct (rstrip s) as [|a z]; [done|].
  rewrite Hw, string_app_cons in Hs. simpl in *.
  destruct (is_space a); [|done].
  destruct (lstrip_suffix (z +:+ w)) as [w' Hw'].
  rewrite Hs in Hw'. apply (f_equal String.length) in Hw'.
  rewrite !string_length_app in Hw'. cbn [String.length] in Hw'.
  rewrite string_length_app in Hw'. lia.
Qed.

(** [strip] removes everything it would remove again. *)
Lemma strip_idem s : strip (strip s) = strip s.
Proof.
  unfold strip.
  rewrite (lstrip_rstrip (lstrip s)) by apply lstrip_idem.
  apply rstrip_fixed. unfold rstrip.
  by rewrite string_rev_involutive, lstrip_idem.
Qed.

Lemma rename_map_values c v :
  rename_map !! c = Some v →
  v ∈ ["InvoiceNo"; "CustomerID"; "UnitPrice"; "InvoiceDate"; "Quantity"].
Proof.
  intros Hv. apply elem_of_list_to_map_2 in Hv.
  repeat (apply elem_of_cons in Hv as [[= -> ->]|Hv]; [set_solver|]).
  by apply elem_of_nil in Hv.
Qed.

Lemma canon_cases c :
  canon c ∈ ["InvoiceNo"; "CustomerID"; "UnitPrice"; "InvoiceDate"; "Quantity"]
  ∨ (rename_map !! strip c = None ∧ canon c = strip c).
Proof.
  unfold canon. destruct (rename_map !! strip c) as [v|] eqn:Hv; simpl.
  - left. by eapply rename_map_values.
  - by right.
Qed.

Lemma canon_idem c : canon (canon c) = canon c.
Proof.
  destruct (canon_cases c) as [Hv|[Hnone ->]].
  - repeat (apply elem_of_cons in Hv as [->|Hv]; [by vm_compute|]).
    by apply elem_of_nil in Hv.
  - unfold canon. by rewrite strip_idem, Hnone.
Qed.

Lemma canonical_idem cols : canonical (canonical cols) = canonical cols.
Proof.
  rewrite !canonical_canon, <-list_fmap_compose. apply list_fmap_ext.
  intros i c _. apply canon_idem.
Qed.

Lemma set_field_same cols name r :
  is_Some (index_of name cols) → length r = length cols →
  set_field cols name (field cols name r) r = r.
Proof.
  unfold set_field, field, cell. intros [i Hi] Hlen. rewrite Hi.
  apply list_insert_id'. intros Hlt.
  destruct (lookup_lt_is_Some_2 r i Hlt) as [v Hv]. by rewrite Hv.
Qed.

Lemma imap_id_on {A} (f : nat → A → A) (l : list A) :
  (∀ i x, l !! i = Some x → f i x = x) → imap f l = l.
Proof.
  intros Hf. apply list_eq. intros i. rewrite list_lookup_imap.
  destruct (l !! i) as [x|] eqn:Hi; [|done]. simpl. by rewrite (Hf _ _ Hi).
Qed.

Lemma fmap_id_on {A} (f : A → A) (l : list A) :
  Forall (λ x, f x = x) l → f <$> l = l.
Proof. induction 1 as [|x l Hx _ IH]; [done|]. by rewrite fmap_cons, Hx, IH. Qed.

Lemma index_of_add_label name cols : is_Some (index_of name (add_label name cols)).
Proof.
  unfold add_label. destruct (index_of name cols) as [i|] eqn:Hi; [by rewrite Hi|].
  rewrite index_of_app_new by done. eauto.
Qed.

Lemma index_of_add_label_mono name other cols :
  is_Some (index_of other cols) → is_Some (index_of other (add_label name cols)).
Proof.
  unfold add_label. intros [j Hj]. destruct (index_of name cols); [by rewrite Hj|].
  rewrite (index_of_app_l _ _ _ _ Hj). eauto.
Qed.

Lemma has_required_add_label name cols :
  has_required cols → has_required (add_label name cols).
Proof.
  unfold has_required. intros Hreq c Hc. apply elem_of_list_to_set, index_of_elem.
  apply index_of_add_label_mono, index_of_elem.
  apply (elem_of_list_to_set (C:=gset string)). by apply Hreq.
Qed.

Lemma length_set_field_add cols name v r :
  length r = length cols →
  length (set_field cols name v r) = length (add_label name cols).
Proof.
  unfold set_field, add_label. intros Hlen.
  destruct (index_of name cols); [by rewrite length_insert|].
  rewrite !length_app. simpl. by rewrite Hlen.
Qed.

Lemma canonical_add_total cols :
  canonical (add_label "TotalPrice" (canonical cols))
  = add_label "TotalPrice" (canonical cols).
Proof.
  unfold add_label. destruct (index_of _ _); [apply canonical_idem|].
  rewrite canonical_canon, fmap_app, <-canonical_canon, canonical_idem.
  f_equal.
Qed.

Section Settled.
Context `{Library} (cols : list string).
Hypothesis Hreq : has_required cols.
Hypothesis Htotal : is_Some (index_of "TotalPrice" cols).
Hypothesis Hlib : keeps_timestamps.

Lemma settled_rows_fixed rws :
  Forall (settled cols) rws → clean_rows cols rws = rws ∧
  Forall (comparable cols) (compared_rows cols rws) ∧
  Forall (castable cols) (sales_rows cols rws).
Proof.
  intros Hs.
  pose proof (index_InvoiceNo _ Hreq) as HN.
  pose proof (index_InvoiceDate _ Hreq) as HD.
  pose proof (index_CustomerID _ Hreq) as HC.
  assert (H1 : keep_customers cols rws = rws).
  { apply filter_all. eapply Forall_impl; [exact Hs|].
    intros r (_ & _ & _ & [z Hz] & _). by rewrite Hz. }
  assert (H2 : parse_dates cols rws = rws).
  { unfold parse_dates. apply imap_id_on. intros i r Hi.
    pose proof (proj1 (Forall_forall _ _) Hs r (list_elem_of_lookup_2 _ _ _ Hi))
      as (Hlen & _ & [t Ht] & _).
    rewrite (Hlib _ i t) by (by rewrite list_lookup_fmap, Hi; simpl; rewrite Ht).
    simpl. rewrite <-Ht. by apply set_field_same. }
  assert (H3 : keep_dated cols rws = rws).
  { apply filter_all. eapply Forall_impl; [exact Hs|].
    intros r (_ & _ & [t Ht] & _). by rewrite Ht. }
  assert (H4 : text_invoices cols rws = rws).
  { apply fmap_id_on. eapply Forall_impl; [exact Hs|].
    intros r (Hlen & (s & Hs' & _) & _). rewrite Hs'. simpl. rewrite <-Hs'.
    by apply set_field_same. }
  assert (H5 : keep_sales cols rws = rws).
  { apply filter_all. eapply Forall_impl; [exact Hs|].
    intros r (_ & (s & Hs' & Hpre) & _). rewrite Hs'. unfold starts_with_C.
    simpl. by rewrite Hpre. }
  assert (H6 : keep_positive cols rws = rws).
  { apply filter_all. eapply Forall_impl; [exact Hs|].
    intros r (_ & _ & _ & _ & HQ & HP & _). by rewrite HQ, HP. }
  assert (H7 : int_customers cols rws = rws).
  { apply fmap_id_on. eapply Forall_impl; [exact Hs|].
    intros r (Hlen & _ & _ & [z Hz] & _). rewrite Hz. simpl. rewrite <-Hz.
    by apply set_field_same. }
  assert (H8 : add_totals cols rws = rws).
  { apply fmap_id_on. eapply Forall_impl; [exact Hs|].
    intros r (Hlen & _ & _ & _ & _ & _ & Hmul). rewrite Hmul. simpl.
    by apply set_field_same. }
  assert (Hcmp : compared_rows cols rws = rws).
  { unfold compared_rows. by rewrite H1, H2, H3, H4, H5. }
  assert (Hsales : sales_rows cols rws = rws).
  { unfold sales_rows. by rewrite H1, H2, H3, H4, H5, H6. }
  split_and!.
  - unfold clean_rows. by rewrite Hsales, H7, H8.
  - rewrite Hcmp. eapply Forall_impl; [exact Hs|].
    intros r (_ & _ & _ & _ & HQ & HP & _). unfold positive in *.
    split; [by destruct (gt_zero (field cols "Quantity" r))
           |by destruct (gt_zero (field cols "UnitPrice" r))].
  - rewrite Hsales. eapply Forall_impl; [exact Hs|].
    intros r (_ & _ & _ & [z Hz] & _). unfold castable. rewrite Hz. by eexists.
Qed.
End Settled.

Section Cleaned_rows_settled.
Context `{Library} (cols : list string) (rws : list (list value)).
Hypothesis Hreq : has_required cols.
Hypothesis Hwf : wide cols rws.

Lemma cleaned_row_settled i r t :
  passes cols rws i r t →
  settled (add_label "TotalPrice" cols) (cleaned_row cols t r).
Proof.
  intros Hp. pose proof (passes_length _ _ Hwf _ _ _ Hp) as Hlen.
  pose proof (index_InvoiceNo _ Hreq) as HN.
  pose proof (index_InvoiceDate _ Hreq) as HD.
  pose proof (index_CustomerID _ Hreq) as HC.
  destruct Hp as (_ & _ & Hsale & HQ & HP).
  assert (Hlen4 : length (set_field cols "CustomerID"
            (VInt (default 0 (astype_int (field cols "CustomerID" r))))
            (sale_row cols t r)) = length cols) by (unfold sale_row; len).
  unfold settled, cleaned_row.
  rewrite field_add_label by done.
  rewrite !field_add_label_ne by done.
  unfold sale_row in *. fields.
  split_and!; try done.
  - by apply length_set_field_add.
  - destruct (field cols "InvoiceNo" r) eqn:Hf; simpl in *; eauto.
  - eauto.
  - eauto.
  - apply positive_number in HQ as (q & Hq & _).
    apply positive_number in HP as (p & Hp & _).
    destruct (mul_value_number _ _ _ _ Hq Hp) as (v & x & -> & _). done.
Qed.
End Cleaned_rows_settled.

Section Idempotence.
Context `{Library}.

(** X9. Normalising labels is idempotent: the normalised labels are their
    own normal form, a frame relabelled with them is cleaned like the
    original, and a second call leaves the labels of the caller's frame as
    the first call left them. *)
Theorem normalisation_idempotent df :
  canonical (canonical (columns df)) = canonical (columns df) ∧
  clean (Frame (canonical (columns df)) (rows df)) = clean df ∧
  input_after (input_after df) = input_after df.
Proof.
  split_and!.
  - apply canonical_idem.
  - rewrite !(proj1 (clean_heap_free _)). unfold clean_value. simpl columns.
    simpl rows. by rewrite canonical_idem.
  - rewrite !(proj2 (clean_heap_free _)). simpl. f_equal.
    rewrite <-list_fmap_compose. apply list_fmap_ext. intros i c _. apply strip_idem.
Qed.

(** X10. Cleaning is idempotent: when [pd.to_datetime] leaves timestamps as
    they are, the frame returned for a well-formed frame is well formed and
    is returned unchanged when cleaned again. *)
Theorem clean_idempotent df c :
  keeps_timestamps → wf_frame df → clean df = Ok c →
  wf_frame c ∧ clean c = Ok c.
Proof.
  intros Hlib Hwf Hc. pose proof (wf_frame_wide _ Hwf) as Hw.
  rewrite (proj1 (clean_heap_free df)) in Hc.
  apply clean_value_rows in Hc as (Hreq & Hcols & Hrows & _).
  set (cols := canonical (columns df)) in *.
  assert (Hs : Forall (settled (columns c)) (rows c)).
  { rewrite Hrows, Hcols. apply Forall_forall.
    intros r' (i & r & t & Hp & ->)%clean_rows_elem; [|done..].
    by eapply cleaned_row_settled. }
  assert (Hwfc : wf_frame c).
  { unfold wf_frame. eapply Forall_impl; [exact Hs|]. by intros r [? _]. }
  assert (Hcan : canonical (columns c) = columns c).
  { rewrite Hcols. apply canonical_add_total. }
  assert (Hreqc : has_required (columns c)).
  { rewrite Hcols. by apply has_required_add_label. }
  split; [done|].
  rewrite clean_outcome_eq by (done || by rewrite Hcan). rewrite Hcan.
  assert (Htot : is_Some (index_of "TotalPrice" (columns c))).
  { rewrite Hcols. apply index_of_add_label. }
  destruct (settled_rows_fixed _ Hreqc Htot Hlib _ Hs) as (Hfix & Hcmp & Hcast).
  unfold clean_outcome. rewrite !decide_True by done.
  rewrite Hfix, (add_label_present _ _ Htot). by destruct c.
Qed.
End Idempotence.

(** ** The table [build_rfm] returns *)

Lemma groupby_keys df :
  (groupby df).*1 = merge_sort Z.le (remove_dups (CustomerID <$> df)).
Proof.
  unfold groupby. rewrite <-list_fmap_compose.
  induction (merge_sort _ _) as [|k l IH]; [done|]. by rewrite fmap_cons, IH.
Qed.

Lemma agg_customers `{Library} s gs : Customer <$> agg s gs = gs.*1.
Proof. unfold agg. rewrite <-list_fmap_compose. done. Qed.

Lemma strictly_sorted (l : list Z) :
  StronglySorted Z.le l → NoDup l → StronglySorted Z.lt l.
Proof.
  induction 1 as [|x l Hs IH Hx]; intros Hnd; [constructor|].
  apply NoDup_cons in Hnd as [Hx' Hnd]. constructor; [by apply IH|].
  apply Forall_forall. intros y Hy.
  pose proof (proj1 (Forall_forall _ _) Hx y Hy).
  assert (x ≠ y) by (by intros ->). lia.
Qed.

Lemma StronglySorted_sublist {A} (R : relation A) (l1 l2 : list A) :
  l1 `sublist_of` l2 → StronglySorted R l2 → StronglySorted R l1.
Proof.
  induction 1 as [|x l1 l2 Hsub IH|x l1 l2 Hsub IH]; intros Hs; [done|..].
  - apply StronglySorted_inv in Hs as [Hs Hx]. constructor; [by apply IH|].
    eapply Forall_forall. intros y Hy. apply (proj1 (Forall_forall _ _) Hx).
    by eapply elem_of_sublist.
  - apply StronglySorted_inv in Hs as [Hs _]. by apply IH.
Qed.

Lemma build_rfm_keys_sublist `{Library} df :
  Customer <$> build_rfm df `sublist_of` (groupby df).*1.
Proof.
  unfold build_rfm. cbv zeta. rewrite <-(agg_customers (snapshot_date df)).
  etrans; [apply fmap_sublist, sublist_filter|].
  etrans; [apply fmap_sublist, sublist_filter|].
  rewrite <-list_fmap_compose. done.
Qed.

Lemma max_time_shift d l : max_time ((λ t, t + d) <$> l) = (λ t, t + d) <$> max_time l.
Proof.
  induction l as [|x l IH]; [done|].
  change (Some (from_option (Z.max (x + d)) (x + d)
                  (max_time ((λ t, t + d) <$> l)))
          = (λ t, t + d) <$> Some (from_option (Z.max x) x (max_time l))).
  rewrite IH. destruct (max_time l) as [m|]; simpl; [|done]. f_equal. lia.
Qed.

Lemma shift_dates_dates d df :
  InvoiceDate <$> shift_dates d df = (λ t, t + d) <$> (InvoiceDate <$> df).
Proof. unfold shift_dates. by rewrite <-!list_fmap_compose. Qed.

Lemma shift_dates_customers d df :
  CustomerID <$> shift_dates d df = CustomerID <$> df.
Proof. unfold shift_dates. by rewrite <-!list_fmap_compose. Qed.

Lemma shift_dates_filter d k df :
  filter (λ t, CustomerID t = k) (shift_dates d df)
  = shift_dates d (filter (λ t, CustomerID t = k) df).
Proof.
  unfold shift_dates. induction df as [|t df IH]; [done|].
  rewrite fmap_cons. destruct (decide (CustomerID t = k)) as [Hk|Hk].
  - rewrite !filter_cons_True by done. by rewrite fmap_cons, IH.
  - rewrite !filter_cons_False by done. done.
Qed.

Lemma recency_shift d s l :
  recency ((λ m, m + d) <$> s) ((λ t, t + d) <$> l) = recency s l.
Proof.
  unfold recency. rewrite max_time_shift.
  destruct s as [s|]; [|done]. simpl. destruct (max_time l) as [m|]; [|done].
  simpl. do 2 f_equal. lia.
Qed.

Lemma agg_shift `{Library} d df :
  agg (snapshot_date (shift_dates d df)) (groupby (shift_dates d df))
  = agg (snapshot_date df) (groupby df).
Proof.
  assert (Hsnap : snapshot_date (shift_dates d df)
                  = (λ m, m + d) <$> snapshot_date df).
  { unfold snapshot_date. rewrite shift_dates_dates, max_time_shift.
    destruct (max_time _); [|done]. simpl. f_equal. lia. }
  unfold agg, groupby. rewrite shift_dates_customers, <-!list_fmap_compose.
  apply list_fmap_ext. intros i k _. simpl.
  rewrite shift_dates_filter, Hsnap, shift_dates_dates, recency_shift.
  unfold shift_dates. by rewrite <-!list_fmap_compose.
Qed.

Lemma max_time_perm l l' : l ≡ₚ l' → max_time l = max_time l'.
Proof.
  intros Hp. destruct (max_time l) as [m|] eqn:Hm, (max_time l') as [m'|] eqn:Hm'.
  - f_equal. apply max_time_is_max in Hm, Hm'.
    eapply is_max_unique; [done|]. destruct Hm' as [Hin Hub].
    split; [by rewrite Hp|]. intros x Hx. apply Hub. by rewrite <-Hp.
  - destruct l'; [|done]. apply Permutation_nil_r in Hp. by subst.
  - destruct l; [|done]. apply Permutation_nil_l in Hp. by subst.
  - done.
Qed.

Lemma nunique_perm l l' : l ≡ₚ l' → nunique l = nunique l'.
Proof.
  intros Hp. rewrite !nunique_size. f_equal. apply set_eq. intros x.
  by rewrite !elem_of_list_to_set, Hp.
Qed.

Lemma groupby_keys_perm df df' :
  df ≡ₚ df' →
  merge_sort Z.le (remove_dups (CustomerID <$> df))
  = merge_sort Z.le (remove_dups (CustomerID <$> df')).
Proof.
  intros Hp. apply (StronglySorted_unique Z.le).
  - apply StronglySorted_merge_sort; apply _.
  - apply StronglySorted_merge_sort; apply _.
  - rewrite !merge_sort_Permutation. apply NoDup_Permutation.
    + apply NoDup_remove_dups.
    + apply NoDup_remove_dups.
    + intros x. by rewrite !elem_of_remove_dups, Hp.
Qed.

(** X11. The table [build_rfm] returns is in strictly increasing order of
    customer identifier; in particular no customer has two rows. *)
Theorem build_rfm_sorted `{Library} df :
  StronglySorted Z.lt (Customer <$> build_rfm df).
Proof.
  eapply StronglySorted_sublist; [apply build_rfm_keys_sublist|].
  apply strictly_sorted.
  - rewrite groupby_keys. apply StronglySorted_merge_sort; apply _.
  - apply NoDup_groupby_keys.
Qed.

(** X14. Moving every invoice date of a non-empty table by the same amount
    changes nothing in the table [build_rfm] returns, as long as the dates
    are in range before and after: both calls return, and the same table.
    Recency is measured from the latest date of the table itself. *)
Theorem build_rfm_shift_invariant `{Library} d df :
  df ≠ [] → in_range df → in_range (shift_dates d df) →
  build_rfm_error df = None ∧
  build_rfm_error (shift_dates d df) = None ∧
  build_rfm (shift_dates d df) = build_rfm df.
Proof.
  intros Hne Hin Hin'. split_and!.
  - unfold build_rfm_error. by rewrite decide_False, decide_True.
  - unfold build_rfm_error. rewrite decide_False, decide_True; [done..|].
    unfold shift_dates. by intros ?%fmap_nil_inv.
  - unfold build_rfm. cbv zeta. by rewrite agg_shift.
Qed.

(** X15. The customer, recency and frequency of the aggregated rows do not
    depend on the order of the rows of the table. *)
Theorem visits_order_independent `{Library} df df' :
  df ≡ₚ df' →
  visits <$> agg (snapshot_date df) (groupby df)
  = visits <$> agg (snapshot_date df') (groupby df').
Proof.
  intros Hp. unfold agg, groupby. rewrite <-!list_fmap_compose.
  rewrite (groupby_keys_perm _ _ Hp). apply list_fmap_ext. intros i k _.
  unfold visits. simpl.
  assert (Hrows : filter (λ t, CustomerID t = k) df
                  ≡ₚ filter (λ t, CustomerID t = k) df') by (by rewrite Hp).
  f_equal; [f_equal|].
  - unfold recency, snapshot_date.
    rewrite (max_time_perm (InvoiceDate <$> df) (InvoiceDate <$> df'))
      by (by rewrite Hp).
    by rewrite (max_time_perm _ _ (fmap_Permutation InvoiceDate _ _ Hrows)).
  - apply nunique_perm. by rewrite Hrows.
Qed.

(** ** Runs of [main] *)


(** One case for every way a run of [main] can go. *)
Ltac run_main w :=
  unfold main, load_data, cleaning, aggregating, os_path_exists, pd_read_csv,
    pd_read_excel, print, os_makedirs, to_csv, call, fail;
  unfold mbind, script_bind, mret, script_ret; cbv beta iota;
  destruct (path_exists w RAW_PATH_CSV) eqn:Hcsv;
  [ destruct (csv_file w RAW_PATH_CSV "ISO-8859-1") as [df|] eqn:Hread
  | destruct (path_exists w RAW_PATH_XLSX) eqn:Hxlsx;
    [ destruct (excel_file w RAW_PATH_XLSX "openpyxl") as [df|] eqn:Hread | ] ];
  cbv beta iota;
  try (match goal with
       | |- context [clean ?d] => destruct (clean d) as [c|err] eqn:Hclean
       end; cbv beta iota;
       [ match goal with
         | |- context [transactions ?d] =>
             destruct (transactions d) as [ts|] eqn:Hts
         end; cbv beta iota;
         [ match goal with
           | |- context [build_rfm_error ?l] =>
               destruct (build_rfm_error l) as [rfm_err|] eqn:Herr
           end; cbv beta iota;
           [ | destruct (dirs_made w (dirname OUT_PATH)) eqn:Hdirs; cbv beta iota;
               [ destruct (csv_written w OUT_PATH) eqn:Hwr; cbv beta iota | ] ]
         | ] | ]).


Section Main.
Context `{Library}.


(** X18. The CSV file takes precedence: when it exists, a run neither looks
    for nor reads the spreadsheet; when only the spreadsheet exists, nothing
    is read as CSV; when neither exists, the run looks for both, raises
    [FileNotFoundError] and does nothing else. *)
Theorem dataset_lookup w :
  if path_exists w RAW_PATH_CSV then
    Forall (λ e, e ≠ Exists RAW_PATH_XLSX ∧ ∀ p x, e ≠ ReadExcel p x) (main w).1
  else if path_exists w RAW_PATH_XLSX then
    Forall (λ e, ∀ p x, e ≠ ReadCsv p x) (main w).1
  else
    main w = ([Exists RAW_PATH_CSV; Exists RAW_PATH_XLSX],
              Failed (FileNotFoundError
    "Could not find dataset. Put it at data/raw/online_retail.csv or data/raw/online_retail.xlsx")).
Proof.
  run_main w; try done; simpl; repeat constructor; try done.
Qed.
End Main.

(** ** From the raw frame to the feature table *)

Lemma timestamps_kept : @keeps_timestamps timestamps_only.
Proof. intros col i t Hc. simpl. by rewrite Hc. Qed.


Lemma clean_never_key_error_witness :
  (∀ name, @clean timestamps_only ex_raw ≠ Raise (KeyError name)) ∧
  ((∃ c, @clean timestamps_only ex_raw = Ok c) ∨
   (∃ m f, @clean timestamps_only ex_raw = Raise (SchemaError m f)) ∨
   @clean timestamps_only ex_raw = Raise TypeError ∨
   @clean timestamps_only ex_raw = Raise CastError).
Proof.
  apply clean_never_key_error.
  - repeat constructor.
  - apply (bool_decide_unpack _). by vm_compute.
Defined.


(** X3, witness: a text quantity in a cancellation and a regular sale. *)
Lemma type_error_iff_witness :
  @clean timestamps_only ex_text_in_cancellation = Raise TypeError ↔
  ∃ i r t,
    @reaches timestamps_only (canonical (columns ex_text_in_cancellation))
      (rows ex_text_in_cancellation) i r t ∧
    ¬ comparable (canonical (columns ex_text_in_cancellation)) r.
Proof.
  apply type_error_iff.
  - repeat constructor.
  - apply (bool_decide_unpack _). by vm_compute.
  - split_and!.
    + apply (bool_decide_unpack _). by vm_compute.
    + apply Exists_cons_tl, Exists_cons_hd. reflexivity.
    + apply Exists_cons_hd. reflexivity.
Defined.


(** X7, witness: the raw example frame, which has a [Country] column. *)
Lemma other_columns_pass_through_witness :
  columns (@cleaned timestamps_only ex_raw)
  = add_label "TotalPrice" (canonical (columns ex_raw)) ∧
  Forall (λ r', ∃ r, r ∈ rows ex_raw ∧
            ∀ n, n ∉ written_labels →
                 field (columns (@cleaned timestamps_only ex_raw)) n r'
                 = field (canonical (columns ex_raw)) n r)
         (rows (@cleaned timestamps_only ex_raw)).
Proof.
  apply (@other_columns_pass_through timestamps_only ex_raw).
  - repeat constructor.
  - vm_compute. reflexivity.
Defined.

(** X8, witness: the [Country] column of the raw example frame. *)
Lemma row_order_preserved_witness :
  field (columns (@cleaned timestamps_only ex_raw)) "Country"
    <$> rows (@cleaned timestamps_only ex_raw)
  `sublist_of` field (canonical (columns ex_raw)) "Country" <$> rows ex_raw.
Proof.
  apply (@row_order_preserved timestamps_only ex_raw).
  - repeat constructor.
  - vm_compute. reflexivity.
  - intros Hin. apply list_elem_of_In in Hin. simpl in Hin.
    repeat destruct Hin as [Hin|Hin]; try discriminate Hin. done.
Defined.

(** X10, witness: the raw example frame, timestamps converting to
    themselves. *)
Lemma clean_idempotent_witness :
  wf_frame (@cleaned timestamps_only ex_raw) ∧
  @clean timestamps_only (@cleaned timestamps_only ex_raw)
  = Ok (@cleaned timestamps_only ex_raw).
Proof.
  apply (@clean_idempotent timestamps_only ex_raw).
  - exact timestamps_kept.
  - repeat constructor.
  - vm_compute. reflexivity.
Defined.

(** X14, witness: the example table moved by one day. *)
Lemma build_rfm_shift_invariant_witness :
  build_rfm_error ex_AAB = None ∧
  build_rfm_error (shift_dates day ex_AAB) = None ∧
  @build_rfm timestamps_only (shift_dates day ex_AAB)
  = @build_rfm timestamps_only ex_AAB.
Proof.
  apply build_rfm_shift_invariant.
  - discriminate.
  - apply (bool_decide_unpack _). by vm_compute.
  - apply (bool_decide_unpack _). by vm_compute.
Defined.

(** X15, witness: a table and the same rows in reverse order. *)
Lemma visits_order_independent_witness :
  visits <$> @agg timestamps_only (snapshot_date ex_AAB) (groupby ex_AAB)
  = visits <$> @agg timestamps_only (snapshot_date (reverse ex_AAB))
                 (groupby (reverse ex_AAB)).
Proof. apply visits_order_independent. symmetry. apply reverse_Permutation. Defined.

